(** * LLM-Forge: provider stream parsers and the execution context

  A shallow embedding of
  - the streaming methods of the Hugging Face and Together AI provider
    parsers, as the streaming QA report lists them
    ([tests/reports/streaming-qa-report.md]), and
  - the execution-span bookkeeping of [service/execution-context.ts].

  Raw chunks are already-deserialized JavaScript values; a method that can
  throw returns a [completion]. *)

From Stdlib Require Import QArith Ascii.
From stdpp Require Import base option strings list gmap pretty.

Local Open Scope string_scope.
Local Open Scope list_scope.

(** ** JavaScript values and the operators the parsers use *)

Module Js.

(** A deserialized payload. [Undefined] is what a property read yields for a
    missing key; an object keeps its members in the order of its own
    keys, each key once; a string is held as its UTF-8 bytes. *)
#[local] Unset Elimination Schemes.
Inductive value : Type :=
| Undefined
| Null
| Bool (b : bool)
| Num (q : Q)
| Str (s : string)
| Arr (items : list value)
| Obj (members : list (string * value)).
#[local] Set Elimination Schemes.

Inductive exn : Type :=
| TypeError
| SyntaxError.

(** Outcome of evaluating code that may throw. *)
Inductive completion (A : Type) : Type :=
| Normal (a : A)
| Throw (e : exn).
Arguments Normal {A} a.
Arguments Throw {A} e.

Definition bind {A B} (c : completion A) (k : A -> completion B) : completion B :=
  match c with
  | Normal a => k a
  | Throw e => Throw e
  end.

Definition raises {A} (c : completion A) : Prop :=
  match c with
  | Normal _ => False
  | Throw _ => True
  end.

(** ToBoolean. *)
Definition truthy (v : value) : bool :=
  match v with
  | Undefined | Null => false
  | Bool b => b
  | Num q => negb (Qeq_bool q 0)
  | Str s => negb (String.eqb s "")
  | Arr _ | Obj _ => true
  end.

Fixpoint assoc (k : string) (ms : list (string * value)) : option value :=
  match ms with
  | [] => None
  | (k', v) :: ms' => if String.eqb k k' then Some v else assoc k ms'
  end.

(** [v.k] for the member names the parsers read; none of them is a built-in
    property of a string, number, boolean or array, so only an object can
    answer with something else than [undefined]. Reading a property of
    [null] or [undefined] throws. *)
Definition get (k : string) (v : value) : completion value :=
  match v with
  | Undefined | Null => Throw TypeError
  | Obj ms => Normal (default Undefined (assoc k ms))
  | _ => Normal Undefined
  end.

(** [v?.k]. *)
Definition get_opt (k : string) (v : value) : completion value :=
  match v with
  | Undefined | Null => Normal Undefined
  | _ => get k v
  end.

(** ['k' in v] for the member names the parsers test, none of which is an
    array index; the right operand must be an object. *)
Definition has (k : string) (v : value) : completion bool :=
  match v with
  | Obj ms => Normal (bool_decide (is_Some (assoc k ms)))
  | Arr _ => Normal false
  | _ => Throw TypeError
  end.

(** [Array.isArray(v)]. *)
Definition isArray (v : value) : bool :=
  match v with
  | Arr _ => true
  | _ => false
  end.

(** [typeof v === 'object'] ([typeof null] is ['object'] too). *)
Definition typeof_object (v : value) : bool :=
  match v with
  | Null | Arr _ | Obj _ => true
  | _ => false
  end.

(** [a || b] on values. *)
Definition or_else (a b : value) : value :=
  if truthy a then a else b.

(** The elements a [for (const x of v)] loop visits: an array's items, a
    string's code points; anything else is not iterable. A string is held as
    its UTF-8 bytes, so a code point is a byte that is not a continuation
    byte ([10xxxxxx]) followed by the continuation bytes after it. *)
Definition is_continuation (c : Ascii.ascii) : bool :=
  match c with
  | Ascii.Ascii _ _ _ _ _ _ b6 b7 => b7 && negb b6
  end.

Definition flush (current : string) : list value :=
  match current with
  | EmptyString => []
  | _ => [Str current]
  end.

Fixpoint code_points (current : string) (s : string) : list value :=
  match s with
  | EmptyString => flush current
  | String c s' =>
      if is_continuation c then code_points (current +:+ String c EmptyString) s'
      else flush current ++ code_points (String c EmptyString) s'
  end.

Definition chars (s : string) : list value :=
  code_points EmptyString s.

Definition iterate (v : value) : completion (list value) :=
  match v with
  | Arr items => Normal items
  | Str s => Normal (chars s)
  | _ => Throw TypeError
  end.

(** Membership tests of a chunk, as properties. *)
Definition has_field (k : string) (v : value) : Prop :=
  exists ms, v = Obj ms /\ is_Some (assoc k ms).

Definition field (k : string) (v : value) : value :=
  match v with
  | Obj ms => default Undefined (assoc k ms)
  | _ => Undefined
  end.

End Js.

Notation "x <- c ;; k" := (Js.bind c (fun x => k))
(at level 100, c at next level, right associativity).

(** ** Unified data model *)

(** The closed enumeration [stop], [length], [tool_calls], [content_filter],
    [error], [unknown]. *)
Inductive NormalizedStopReason : Type :=
| SR_stop
| SR_length
| SR_tool_calls
| SR_content_filter
| SR_error
| SR_unknown.

Inductive StreamEventType : Type :=
| content_block_start
| content_block_delta
| content_block_stop
| message_start
| message_delta
| message_stop
| error_event.

Inductive ErrorKind : Type :=
| EK_auth
| EK_rate_limit
| EK_model_unavailable
| EK_invalid_request
| EK_provider_error
| EK_unknown.

(** Modelled from the spec: the declarations of [NormalizedError],
    [ModelInfo] and the tool-use content block are not among the sources;
    their fields are those of the data-model section. *)
Record NormalizedError : Type := {
  kind : ErrorKind;
  message : Js.value;
  code : option Js.value;
  retryable : bool
}.

Record ModelInfo : Type := {
  model_id : Js.value;
  model_provider : string
}.

Record ToolUseContent : Type := {
  tool_id : Js.value;
  tool_name : Js.value;
  tool_input : Js.value
}.

(** The object literals the parsers push: [{ type, delta: { text } , index }],
    [{ type, delta: { stopReason } }] and [{ type, contentBlock, index }].
    A member the literal does not write is [None]. *)
Inductive Delta : Type :=
| TextDelta (text : Js.value)
| StopDelta (stopReason : NormalizedStopReason).

Record StreamChunk : Type := {
  type : StreamEventType;
  delta : option Delta;
  contentBlock : option ToolUseContent;
  index : option Js.value
}.

Record StreamMetadata : Type := {
  timestamp : string;
  complete : option bool
}.

Module Unified.
Record StreamResponse : Type := {
  id : Js.value;
  provider : string;
  model : ModelInfo;
  chunks : list StreamChunk;
  metadata : StreamMetadata;
  error : option NormalizedError
}.
End Unified.

(** What a provider class inherits from [BaseProviderParser] and calls through
    [this]. The bodies are not among the sources, so they are the members of
    an interface; [generateId] and [getCurrentTimestamp] stand for the value
    the call returns. *)
Class BaseProviderParser : Type := {
  provider : string;
  generateId : string;
  getCurrentTimestamp : string;
  extractError : Js.value -> option NormalizedError;
  extractModelInfo : Js.value -> ModelInfo;
  createModelInfo : Js.value -> string -> ModelInfo;
  normalizeStopReason : Js.value -> NormalizedStopReason;
  createToolUseContent : Js.value -> Js.value -> Js.value -> ToolUseContent
}.

(** ** Hugging Face: the streaming methods of [huggingface-provider.ts] *)

Module HuggingFace.
Import Js.

(** [validateStreamChunk]: the verdict, with the diagnostics [addError]
    records on the way. *)
Definition validateStreamChunk (chunk : value) : completion (bool * list string) :=
  if negb (truthy chunk) || negb (typeof_object chunk) then
    Normal (false, ["Invalid chunk: must be an object"])
  else
    let obj := chunk in
    err <- get "error" obj ;;
    if truthy err then Normal (true, []) else
    tok <- has "token" obj ;;
    if tok then Normal (true, []) else
    inChoices <- has "choices" obj ;;
    tgi <- (if inChoices then c <- get "choices" obj ;; Normal (isArray c)
            else Normal false) ;;
    if tgi then Normal (true, []) else
    gen <- has "generated_text" obj ;;
    conv <- (if gen then Normal true else has "conversation" obj) ;;
    if conv then Normal (true, []) else
    Normal (false, ["Invalid chunk: unrecognized format"]).

Definition accepts (chunk : value) : Prop :=
  exists diagnostics, validateStreamChunk chunk = Normal (true, diagnostics).

Definition rejects (chunk : value) : Prop :=
  exists diagnostics, validateStreamChunk chunk = Normal (false, diagnostics).

Section Parse.
Context `{base : BaseProviderParser}.

(** One turn of [for (const choice of choices)]: the events it pushes. *)
Definition parseChoice (choice : value) : completion (list StreamChunk) :=
  d <- get "delta" choice ;;
  content <- get_opt "content" d ;;
  pushed1 <-
    (if truthy content then
       d' <- get "delta" choice ;;
       text <- get "content" d' ;;
       idx <- get "index" choice ;;
       Normal [ {| type := content_block_delta;
                   delta := Some (TextDelta text);
                   contentBlock := None;
                   index := Some (or_else idx (Num 0)) |} ]
     else Normal []) ;;
  fr <- get "finish_reason" choice ;;
  pushed2 <-
    (if truthy fr then
       fr' <- get "finish_reason" choice ;;
       Normal [ {| type := message_stop;
                   delta := Some (StopDelta (normalizeStopReason fr'));
                   contentBlock := None;
                   index := None |} ]
     else Normal []) ;;
  Normal (pushed1 ++ pushed2).

Fixpoint parseChoices (choices : list value) : completion (list StreamChunk) :=
  match choices with
  | [] => Normal []
  | choice :: rest =>
      pushed <- parseChoice choice ;;
      more <- parseChoices rest ;;
      Normal (pushed ++ more)
  end.

(** The branch "Parse token-based streaming". *)
Definition parseToken (obj : value) : completion (list StreamChunk) :=
  token <- get "token" obj ;;
  t <- get_opt "text" token ;;
  if truthy t then
    text <- get "text" token ;;
    Normal [ {| type := content_block_delta;
                delta := Some (TextDelta text);
                contentBlock := None;
                index := None |} ]
  else Normal [].

(** "Check if this is the final chunk":
    [!!obj.generated_text || !!obj.details?.finish_reason]. *)
Definition isFinalChunk (obj : value) : completion bool :=
  gen <- get "generated_text" obj ;;
  if truthy gen then Normal true
  else
    details <- get "details" obj ;;
    fr <- get_opt "finish_reason" details ;;
    Normal (truthy fr).

Definition parseStreamChunk (chunk : value) : completion Unified.StreamResponse :=
  let obj := chunk in
  let error := extractError chunk in
  inChoices <- has "choices" obj ;;
  isTGI <- (if inChoices then c <- get "choices" obj ;; Normal (isArray c)
            else Normal false) ;;
  isTokenBased <- has "token" obj ;;
  isConversational <- has "conversation" obj ;;
  chunks <-
    (if isTGI then
       cs <- get "choices" obj ;;
       choices <- iterate cs ;;
       parseChoices choices
     else if isTokenBased then parseToken obj
     else Normal []) ;;
  isComplete <- isFinalChunk obj ;;
  oid <- get "id" obj ;;
  Normal {| Unified.id := or_else oid (Str generateId);
            Unified.provider := provider;
            Unified.model := extractModelInfo chunk;
            Unified.chunks := chunks;
            Unified.metadata := {| timestamp := getCurrentTimestamp;
                                   complete := Some isComplete |};
            Unified.error := error |}.

End Parse.
End HuggingFace.

(** ** Together AI: [parseStreamChunk] of [all-providers.ts] *)

Module Together.
Import Js.

Section Parse.
Context `{base : BaseProviderParser}.

(** The method as the report found it ("Current Code"): the chunk is not
    read, no event is extracted and the literal has no [error] member. *)
Definition parseStreamChunk (chunk : value) : completion Unified.StreamResponse :=
  Normal {| Unified.id := Str generateId;
            Unified.provider := provider;
            Unified.model := createModelInfo (Str "unknown") provider;
            Unified.chunks := [];
            Unified.metadata := {| timestamp := getCurrentTimestamp;
                                   complete := None |};
            Unified.error := None |}.

(** [JSON.parse], a built-in: it throws a [SyntaxError] on malformed text. *)
Variable JSON_parse : value -> completion value.

(** The method as the report repairs it ("Fixed Code"). *)
Definition parseToolCall (toolCall : value) : completion StreamChunk :=
  tid <- get "id" toolCall ;;
  f <- get "function" toolCall ;;
  name <- get_opt "name" f ;;
  f' <- get "function" toolCall ;;
  args <- get_opt "arguments" f' ;;
  input <- JSON_parse (or_else args (Str "{}")) ;;
  idx <- get "index" toolCall ;;
  Normal {| type := content_block_start;
            delta := None;
            contentBlock := Some (createToolUseContent tid name input);
            index := Some (or_else idx (Num 0)) |}.

Fixpoint parseToolCalls (toolCalls : list value) : completion (list StreamChunk) :=
  match toolCalls with
  | [] => Normal []
  | toolCall :: rest =>
      pushed <- parseToolCall toolCall ;;
      more <- parseToolCalls rest ;;
      Normal (pushed :: more)
  end.

Definition parseChoice_fixed (choice : value) : completion (list StreamChunk) :=
  d <- get "delta" choice ;;
  content <- get_opt "content" d ;;
  pushed1 <-
    (if truthy content then
       d' <- get "delta" choice ;;
       text <- get "content" d' ;;
       idx <- get "index" choice ;;
       Normal [ {| type := content_block_delta;
                   delta := Some (TextDelta text);
                   contentBlock := None;
                   index := Some (or_else idx (Num 0)) |} ]
     else Normal []) ;;
  d2 <- get "delta" choice ;;
  tcs <- get_opt "tool_calls" d2 ;;
  pushed2 <-
    (if truthy tcs then
       d2' <- get "delta" choice ;;
       tcs' <- get "tool_calls" d2' ;;
       toolCalls <- iterate tcs' ;;
       parseToolCalls toolCalls
     else Normal []) ;;
  fr <- get "finish_reason" choice ;;
  pushed3 <-
    (if truthy fr then
       fr' <- get "finish_reason" choice ;;
       Normal [ {| type := message_stop;
                   delta := Some (StopDelta (normalizeStopReason fr'));
                   contentBlock := None;
                   index := None |} ]
     else Normal []) ;;
  Normal (pushed1 ++ pushed2 ++ pushed3).

Fixpoint parseChoices_fixed (choices : list value) : completion (list StreamChunk) :=
  match choices with
  | [] => Normal []
  | choice :: rest =>
      pushed <- parseChoice_fixed choice ;;
      more <- parseChoices_fixed rest ;;
      Normal (pushed ++ more)
  end.

Definition parseStreamChunk_fixed (chunk : value) : completion Unified.StreamResponse :=
  let obj := chunk in
  let error := extractError chunk in
  cs <- get "choices" obj ;;
  chunks <-
    (if truthy cs && isArray cs then
       cs' <- get "choices" obj ;;
       choices <- iterate cs' ;;
       parseChoices_fixed choices
     else Normal []) ;;
  oid <- get "id" obj ;;
  m <- get "model" obj ;;
  Normal {| Unified.id := or_else oid (Str generateId);
            Unified.provider := provider;
            Unified.model := createModelInfo (or_else m (Str "unknown")) provider;
            Unified.chunks := chunks;
            Unified.metadata := {| timestamp := getCurrentTimestamp;
                                   complete := None |};
            Unified.error := error |}.

End Parse.
End Together.

(** ** Provider classes as the report audits them *)

Record Capabilities : Type := {
  streaming : bool;
  functionCalling : bool;
  toolUse : bool;
  vision : bool
}.

Record ProviderMetadata : Type := {
  capabilities : Capabilities
}.

(** A provider class: its metadata and its two streaming methods. An abstract
    method the class does not implement is [None]. *)
Record ProviderClass : Type := {
  class_name : string;
  getMetadata : ProviderMetadata;
  validateStreamChunk_method : option (Js.value -> Js.completion (bool * list string));
  parseStreamChunk_method : option (Js.value -> Js.completion Unified.StreamResponse)
}.

Section Registry.
Context `{base : BaseProviderParser}.

(** [HuggingFaceProvider extends BaseProviderParser]: "Missing Methods: 2
    required abstract methods", with the capability block of its metadata. *)
Definition HuggingFaceProvider : ProviderClass :=
  {| class_name := "HuggingFaceProvider";
     getMetadata := {| capabilities := {| streaming := true;
                                          functionCalling := false;
                                          toolUse := false;
                                          vision := true |} |};
     validateStreamChunk_method := None;
     parseStreamChunk_method := None |}.

(** [TogetherProvider extends BaseProviderParser]: streaming is claimed,
    [validateStreamChunk] "only checks if chunk is an object" and
    [parseStreamChunk] is the method found. The report does not give the
    other capability flags of this class. *)
Variables functionCalling_claimed toolUse_claimed vision_claimed : bool.

Definition TogetherProvider : ProviderClass :=
  {| class_name := "TogetherProvider";
     getMetadata := {| capabilities := {| streaming := true;
                                          functionCalling := functionCalling_claimed;
                                          toolUse := toolUse_claimed;
                                          vision := vision_claimed |} |};
     validateStreamChunk_method :=
       Some (fun chunk => Js.Normal (Js.truthy chunk && Js.typeof_object chunk, []));
     parseStreamChunk_method := Some Together.parseStreamChunk |}.

(** The providers the streaming tests find registered (Replicate is not). *)
Definition registered_providers : list ProviderClass :=
  [HuggingFaceProvider; TogetherProvider].

(** A streaming flag is truthful when the class has a [parseStreamChunk] that
    returns a response without an error for some chunk. *)
Definition metadata_truthful (p : ProviderClass) : Prop :=
  streaming (capabilities (getMetadata p)) = true ->
  exists parse chunk response,
    parseStreamChunk_method p = Some parse /\
    parse chunk = Js.Normal response /\
    Unified.error response = None.

(** A chunk [validates] for a class when the class has a
    [validateStreamChunk] and it returns true for the chunk. *)
Definition validates (p : ProviderClass) (chunk : Js.value) : Prop :=
  exists validate diagnostics,
    validateStreamChunk_method p = Some validate /\
    validate chunk = Js.Normal (true, diagnostics).

End Registry.

(** ** Shared finish-reason normalization *)

Module FinishReason.

Definition closed_enumeration : list NormalizedStopReason :=
  [SR_stop; SR_length; SR_tool_calls; SR_content_filter; SR_error; SR_unknown].

(** Modelled from the spec: the base parser's [normalizeStopReason] is not
    among the sources. The spec has a single mapping table from
    provider-native finish-reason strings to [NormalizedStopReason], unmapped
    values falling to [unknown]; it does not list the rows, so the table is
    an argument. *)
Definition normalizeStopReason
    (table : gmap string NormalizedStopReason) (reason : string) : NormalizedStopReason :=
  default SR_unknown (table !! reason).

End FinishReason.

(** ** A base parser to run the methods on concrete chunks *)

Module Fixture.
Import Js.

(** Modelled from the spec: scenario B has [stop] for the native string
    ["stop"]; no other row is given. *)
Definition finish_reason_table : gmap string NormalizedStopReason :=
  {[ "stop" := SR_stop ]}.

(** Modelled from the spec: the error classification is not among the
    sources; scenario D has kind [rate_limit] for the error type
    ["rate_limit_error"], and a payload without a top-level [error] has no
    error to extract. *)
Definition classify (ty : value) : ErrorKind :=
  match ty with
  | Str "rate_limit_error" => EK_rate_limit
  | _ => EK_unknown
  end.

(** Modelled from the spec: the payload's top-level [error] object, when
    present, is extracted into a [NormalizedError]; only rate limits are
    taken as retryable here. *)
Definition extractTopLevelError (chunk : value) : option NormalizedError :=
  let e := field "error" chunk in
  if truthy e then
    Some {| kind := classify (field "type" e);
            message := field "message" e;
            code := None;
            retryable := match classify (field "type" e) with
                         | EK_rate_limit => true
                         | _ => false
                         end |}
  else None.

(** Modelled from the spec: an implementation of the inherited members, to
    run the methods; the identifier and the timestamp are the values of one
    call. *)
Definition base (name : string) : BaseProviderParser :=
  {| provider := name;
     generateId := "generated-id";
     getCurrentTimestamp := "2025-11-08T00:00:00.000Z";
     extractError := extractTopLevelError;
     extractModelInfo := fun chunk =>
       {| model_id := or_else (field "model" chunk) (Str "unknown");
          model_provider := name |};
     createModelInfo := fun m p => {| model_id := m; model_provider := p |};
     normalizeStopReason := fun r =>
       match r with
       | Str s => FinishReason.normalizeStopReason finish_reason_table s
       | _ => SR_unknown
       end;
     createToolUseContent := fun i n a =>
       {| tool_id := i; tool_name := n; tool_input := a |} |}.

End Fixture.

(** ** Execution context ([service/execution-context.ts]) *)

Inductive SpanStatus : Type :=
| RUNNING
| COMPLETED
| FAILED.

#[global] Instance SpanStatus_eq_dec : EqDecision SpanStatus.
Proof. solve_decision. Defined.

Record ArtifactRef : Type := {
  artifact_id : string;
  label : string;
  content_hash : string;
  content_type : string;
  size_bytes : N;
  created_at : string
}.

(** The constant member [type: 'agent'] is left out. *)
Module AgentSpan.
Record t : Type := {
  agent_name : string;
  repo_name : string;
  span_id : string;
  parent_span_id : string;
  start_time : string;
  end_time : option string;
  status : SpanStatus;
  failure_reason : option string;
  artifacts : list ArtifactRef;
  metadata : option Js.value
}.
End AgentSpan.

(** The constant member [type: 'repo'] is left out. *)
Module RepoSpan.
Record t : Type := {
  repo_name : string;
  span_id : string;
  parent_span_id : string;
  execution_id : string;
  start_time : string;
  end_time : option string;
  status : SpanStatus;
  failure_reason : option string;
  agent_spans : list AgentSpan.t
}.
End RepoSpan.

Record ExecutionContext : Type := {
  executionId : string;
  repoSpan : RepoSpan.t
}.

Record ExecutionResponse (T : Type) : Type := {
  result : T;
  execution : RepoSpan.t
}.
Arguments result {T} _.
Arguments execution {T} _.

(** Span objects are shared with the caller and mutated in place. The
    context only ever holds the objects [startAgentSpan] pushed, each at the
    position of its push, so a span reference is that position; a reference
    past the end stands for a span object that does not belong to this
    context, whose mutation leaves the context as it is.

    [uuid] is what [randomUUID()] returns and [now] what
    [new Date().toISOString()] returns at the call. *)
Abbreviation span_ref := nat (only parsing).

Definition new_ExecutionContext (uuid now : string)
    (executionId parentSpanId : string) : ExecutionContext :=
  {| executionId := executionId;
     repoSpan := {| RepoSpan.repo_name := "llm-forge";
                    RepoSpan.span_id := uuid;
                    RepoSpan.parent_span_id := parentSpanId;
                    RepoSpan.execution_id := executionId;
                    RepoSpan.start_time := now;
                    RepoSpan.end_time := None;
                    RepoSpan.status := RUNNING;
                    RepoSpan.failure_reason := None;
                    RepoSpan.agent_spans := [] |} |}.

Definition with_agent_spans (spans : list AgentSpan.t) (ctx : ExecutionContext)
    : ExecutionContext :=
  let r := repoSpan ctx in
  {| executionId := executionId ctx;
     repoSpan := {| RepoSpan.repo_name := RepoSpan.repo_name r;
                    RepoSpan.span_id := RepoSpan.span_id r;
                    RepoSpan.parent_span_id := RepoSpan.parent_span_id r;
                    RepoSpan.execution_id := RepoSpan.execution_id r;
                    RepoSpan.start_time := RepoSpan.start_time r;
                    RepoSpan.end_time := RepoSpan.end_time r;
                    RepoSpan.status := RepoSpan.status r;
                    RepoSpan.failure_reason := RepoSpan.failure_reason r;
                    RepoSpan.agent_spans := spans |} |}.

Definition startAgentSpan (uuid now : string) (agentName : string)
    (metadata : option Js.value) (ctx : ExecutionContext)
    : ExecutionContext * AgentSpan.t :=
  let span :=
    {| AgentSpan.agent_name := agentName;
       AgentSpan.repo_name := "llm-forge";
       AgentSpan.span_id := uuid;
       AgentSpan.parent_span_id := RepoSpan.span_id (repoSpan ctx);
       AgentSpan.start_time := now;
       AgentSpan.end_time := None;
       AgentSpan.status := RUNNING;
       AgentSpan.failure_reason := None;
       AgentSpan.artifacts := [];
       AgentSpan.metadata := metadata |} in
  (with_agent_spans (RepoSpan.agent_spans (repoSpan ctx) ++ [span]) ctx, span).

Definition complete_span (now : string) (s : AgentSpan.t) : AgentSpan.t :=
  {| AgentSpan.agent_name := AgentSpan.agent_name s;
     AgentSpan.repo_name := AgentSpan.repo_name s;
     AgentSpan.span_id := AgentSpan.span_id s;
     AgentSpan.parent_span_id := AgentSpan.parent_span_id s;
     AgentSpan.start_time := AgentSpan.start_time s;
     AgentSpan.end_time := Some now;
     AgentSpan.status := COMPLETED;
     AgentSpan.failure_reason := AgentSpan.failure_reason s;
     AgentSpan.artifacts := AgentSpan.artifacts s;
     AgentSpan.metadata := AgentSpan.metadata s |}.

Definition fail_span (now reason : string) (s : AgentSpan.t) : AgentSpan.t :=
  {| AgentSpan.agent_name := AgentSpan.agent_name s;
     AgentSpan.repo_name := AgentSpan.repo_name s;
     AgentSpan.span_id := AgentSpan.span_id s;
     AgentSpan.parent_span_id := AgentSpan.parent_span_id s;
     AgentSpan.start_time := AgentSpan.start_time s;
     AgentSpan.end_time := Some now;
     AgentSpan.status := FAILED;
     AgentSpan.failure_reason := Some reason;
     AgentSpan.artifacts := AgentSpan.artifacts s;
     AgentSpan.metadata := AgentSpan.metadata s |}.

Definition push_artifact (artifact : ArtifactRef) (s : AgentSpan.t) : AgentSpan.t :=
  {| AgentSpan.agent_name := AgentSpan.agent_name s;
     AgentSpan.repo_name := AgentSpan.repo_name s;
     AgentSpan.span_id := AgentSpan.span_id s;
     AgentSpan.parent_span_id := AgentSpan.parent_span_id s;
     AgentSpan.start_time := AgentSpan.start_time s;
     AgentSpan.end_time := AgentSpan.end_time s;
     AgentSpan.status := AgentSpan.status s;
     AgentSpan.failure_reason := AgentSpan.failure_reason s;
     AgentSpan.artifacts := AgentSpan.artifacts s ++ [artifact];
     AgentSpan.metadata := AgentSpan.metadata s |}.

Definition completeAgentSpan (now : string) (span : span_ref)
    (ctx : ExecutionContext) : ExecutionContext :=
  with_agent_spans (alter (complete_span now) span (RepoSpan.agent_spans (repoSpan ctx))) ctx.

Definition failAgentSpan (now : string) (span : span_ref) (reason : string)
    (ctx : ExecutionContext) : ExecutionContext :=
  with_agent_spans (alter (fail_span now reason) span (RepoSpan.agent_spans (repoSpan ctx))) ctx.

Definition attachArtifact (span : span_ref) (artifact : ArtifactRef)
    (ctx : ExecutionContext) : ExecutionContext :=
  with_agent_spans (alter (push_artifact artifact) span (RepoSpan.agent_spans (repoSpan ctx))) ctx.

Definition is_failed (s : AgentSpan.t) : bool :=
  bool_decide (AgentSpan.status s = FAILED).

(** The template literal [`${s.agent_name}: ${s.failure_reason}`]; an absent
    reason prints as [undefined]. *)
Definition failure_line (s : AgentSpan.t) : string :=
  AgentSpan.agent_name s +:+ ": " +:+ default "undefined" (AgentSpan.failure_reason s).

Definition finalize (now : string) (ctx : ExecutionContext) : ExecutionContext :=
  let r := repoSpan ctx in
  let spans := RepoSpan.agent_spans r in
  let finished (st : SpanStatus) (reason : option string) :=
    {| executionId := executionId ctx;
       repoSpan := {| RepoSpan.repo_name := RepoSpan.repo_name r;
                      RepoSpan.span_id := RepoSpan.span_id r;
                      RepoSpan.parent_span_id := RepoSpan.parent_span_id r;
                      RepoSpan.execution_id := RepoSpan.execution_id r;
                      RepoSpan.start_time := RepoSpan.start_time r;
                      RepoSpan.end_time := Some now;
                      RepoSpan.status := st;
                      RepoSpan.failure_reason := reason;
                      RepoSpan.agent_spans := spans |} |} in
  if bool_decide (length spans = 0) then
    finished FAILED (Some "No agent spans produced")
  else
    let anyFailed := existsb is_failed spans in
    if anyFailed then
      finished FAILED
        (Some (String.concat "; " (map failure_line (List.filter is_failed spans))))
    else
      finished COMPLETED (RepoSpan.failure_reason r).

Definition buildResponse {T : Type} (now : string) (result : T)
    (ctx : ExecutionContext) : ExecutionContext * ExecutionResponse T :=
  let ctx' := finalize now ctx in
  (ctx', {| result := result; execution := repoSpan ctx' |}).

(** Header extraction. A header is a string, an array of strings, or
    missing. *)
Inductive HeaderValue : Type :=
| Single (s : string)
| Multi (values : list string).

Definition getHeader (headers : gmap string HeaderValue) (name : string) : option string :=
  match headers !! name with
  | Some (Multi values) => head values
  | Some (Single s) => Some s
  | None => None
  end.

Module ExecutionHeaders.
Record t : Type := {
  executionId : string;
  parentSpanId : string
}.
End ExecutionHeaders.

(** The truthy values of [string | undefined]: a header that is missing or
    empty fails [!s] and gives way in [s || d]. *)
Definition truthy_header (s : option string) : option string :=
  match s with
  | Some s' => if String.eqb s' "" then None else Some s'
  | None => None
  end.

Definition extractExecutionHeaders (uuid : string) (headers : gmap string HeaderValue)
    : option ExecutionHeaders.t :=
  match truthy_header (getHeader headers "x-parent-span-id") with
  | None => None
  | Some parentSpanId =>
      let executionId :=
        default uuid (truthy_header (getHeader headers "x-execution-id")) in
      Some {| ExecutionHeaders.executionId := executionId;
              ExecutionHeaders.parentSpanId := parentSpanId |}
  end.

(** The methods of [ExecutionContext] as transitions of its state. *)
Inductive operation : Type :=
| StartAgentSpan (uuid now agentName : string) (metadata : option Js.value)
| CompleteAgentSpan (now : string) (span : span_ref)
| FailAgentSpan (now : string) (span : span_ref) (reason : string)
| AttachArtifact (span : span_ref) (artifact : ArtifactRef)
| Finalize (now : string)
| BuildResponse (now : string).

Definition step (op : operation) (ctx : ExecutionContext) : ExecutionContext :=
  match op with
  | StartAgentSpan uuid now agentName metadata =>
      fst (startAgentSpan uuid now agentName metadata ctx)
  | CompleteAgentSpan now span => completeAgentSpan now span ctx
  | FailAgentSpan now span reason => failAgentSpan now span reason ctx
  | AttachArtifact span artifact => attachArtifact span artifact ctx
  | Finalize now => finalize now ctx
  | BuildResponse now => fst (buildResponse now tt ctx)
  end.

Inductive reachable : ExecutionContext -> Prop :=
| reachable_new uuid now executionId parentSpanId :
    reachable (new_ExecutionContext uuid now executionId parentSpanId)
| reachable_step op ctx :
    reachable ctx -> reachable (step op ctx).

Definition nested_under (repo : RepoSpan.t) (s : AgentSpan.t) : Prop :=
  AgentSpan.parent_span_id s = RepoSpan.span_id repo /\
  AgentSpan.repo_name s = "llm-forge".

Definition hierarchy_ok (ctx : ExecutionContext) : Prop :=
  Forall (nested_under (repoSpan ctx)) (RepoSpan.agent_spans (repoSpan ctx)).

(** ** Chunks of the scenarios *)

Module Scenario.
Import Js.

Definition A : value :=
  Obj [("token", Obj [("text", Str "Hello")])].

Definition B : value :=
  Obj [("choices",
        Arr [ Obj [("index", Num 0); ("delta", Obj [("content", Str "Hi")])];
              Obj [("index", Num 0); ("delta", Obj []); ("finish_reason", Str "stop")] ])].

Definition C : value :=
  Obj [("generated_text", Str "Full answer.");
       ("details", Obj [("finish_reason", Str "eos_token")])].

Definition D : value :=
  Obj [("error", Obj [("message", Str "rate limited"); ("type", Str "rate_limit_error")])].

(** An error that arrives next to partial content. *)
Definition error_with_choices : value :=
  Obj [("error", Obj [("message", Str "rate limited"); ("type", Str "rate_limit_error")]);
       ("choices", Arr [ Obj [("index", Num 0); ("delta", Obj [("content", Str "Hi")])] ])].

(** A [choices] array holding [null]. *)
Definition null_choice : value :=
  Obj [("choices", Arr [Null])].

(** An [error] member that is [null]. *)
Definition null_error : value :=
  Obj [("error", Null)].

End Scenario.

(** ** The shapes a chunk can have *)

Module Shape.
Import Js.

(** The five membership tests, as the specification words them. *)
Definition has_any_field (chunk : value) : Prop :=
  has_field "error" chunk \/
  has_field "token" chunk \/
  (has_field "choices" chunk /\ isArray (field "choices" chunk) = true) \/
  has_field "generated_text" chunk \/
  has_field "conversation" chunk.

(** The same with the test the method applies to [error]. *)
Definition accepted (chunk : value) : Prop :=
  truthy (field "error" chunk) = true \/
  has_field "token" chunk \/
  (has_field "choices" chunk /\ isArray (field "choices" chunk) = true) \/
  has_field "generated_text" chunk \/
  has_field "conversation" chunk.

Definition present (k : string) (ms : list (string * value)) : bool :=
  bool_decide (is_Some (assoc k ms)).

Definition accepted_members (ms : list (string * value)) : bool :=
  truthy (default Undefined (assoc "error" ms))
  || present "token" ms
  || (present "choices" ms && isArray (default Undefined (assoc "choices" ms)))
  || present "generated_text" ms
  || present "conversation" ms.

(** A choice the loop can read: anything but [null] and [undefined]. *)
Definition readable (choice : value) : bool :=
  match choice with
  | Undefined | Null => false
  | _ => true
  end.

End Shape.

(** ** Spans as the caller sees them *)

(** What identifies a span object and never changes after its creation. *)
Definition span_identity (s : AgentSpan.t) : string * string * string * string * string :=
  (AgentSpan.span_id s, AgentSpan.agent_name s, AgentSpan.parent_span_id s,
   AgentSpan.repo_name s, AgentSpan.start_time s).

Definition span_identities (ctx : ExecutionContext) : list (string * string * string * string * string) :=
  span_identity <$> RepoSpan.agent_spans (repoSpan ctx).

(** The header value the extraction looks at: the string itself, or the
    first element of an array. *)
Definition absent_or_empty (h : option HeaderValue) : Prop :=
  h = None \/ h = Some (Single "") \/ h = Some (Multi []) \/
  exists rest, h = Some (Multi ("" :: rest)).

Definition first_value (h : option HeaderValue) (v : string) : Prop :=
  h = Some (Single v) \/ exists rest, h = Some (Multi (v :: rest)).

Module Run.

Definition uuid : string := "7c9e6679-7425-40de-944b-e07fc1f90ae7".

(** A request with a parent span and an empty [x-execution-id] header. *)
Definition empty_execution_id : gmap string HeaderValue :=
  {[ "x-parent-span-id" := Single "span-456"; "x-execution-id" := Single "" ]}.

(** One agent started and failed, then the context finalized. *)
Definition failed_run : ExecutionContext :=
  step (Finalize "2026-01-01T00:00:02.000Z")
    (step (FailAgentSpan "2026-01-01T00:00:01.000Z" 0 "Broke")
       (step (StartAgentSpan "a-1" "2026-01-01T00:00:00.500Z" "agent-1" None)
          (new_ExecutionContext "r-1" "2026-01-01T00:00:00.000Z" "exec-1" "parent-1"))).

End Run.

(** ** Sequences of method calls *)

Definition run (ops : list operation) (ctx : ExecutionContext) : ExecutionContext :=
  foldl (fun c op => step op c) ctx ops.

Definition is_start (op : operation) : bool :=
  match op with
  | StartAgentSpan _ _ _ _ => true
  | _ => false
  end.

Definition is_finalize (op : operation) : bool :=
  match op with
  | Finalize _ | BuildResponse _ => true
  | _ => false
  end.

(** How the members of a span that the methods write go together. *)
Definition lifecycle_ok (s : AgentSpan.t) : Prop :=
  (AgentSpan.status s = RUNNING <-> AgentSpan.end_time s = None) /\
  (AgentSpan.status s = RUNNING -> AgentSpan.failure_reason s = None) /\
  (AgentSpan.status s = FAILED -> is_Some (AgentSpan.failure_reason s)).

(** The members of the repo span that identify it. *)
Definition repo_identity (ctx : ExecutionContext)
    : string * string * string * string * string * string :=
  (executionId ctx, RepoSpan.repo_name (repoSpan ctx), RepoSpan.span_id (repoSpan ctx),
   RepoSpan.parent_span_id (repoSpan ctx), RepoSpan.execution_id (repoSpan ctx),
   RepoSpan.start_time (repoSpan ctx)).

(** ** The HTTP service ([service/server.ts]) *)

Module Service.

(** *** Logging *)

Inductive LogLevel : Type :=
| Debug
| Info
| Warn
| Error.

Definition level_name (level : LogLevel) : string :=
  match level with
  | Debug => "debug"
  | Info => "info"
  | Warn => "warn"
  | Error => "error"
  end.

(** The table [LOG_LEVELS], read with a key of the level type. *)
Definition LOG_LEVELS (level : LogLevel) : nat :=
  match level with
  | Debug => 0
  | Info => 1
  | Warn => 2
  | Error => 3
  end.

(** [LOG_LEVELS[LOG_LEVEL as LogLevel]] for the configured string, which
    comes from the environment unchecked: any other key yields [undefined] or
    a member inherited from [Object.prototype], neither of which is a
    number. *)
Definition configured_threshold (LOG_LEVEL : string) : option nat :=
  if String.eqb LOG_LEVEL "debug" then Some 0
  else if String.eqb LOG_LEVEL "info" then Some 1
  else if String.eqb LOG_LEVEL "warn" then Some 2
  else if String.eqb LOG_LEVEL "error" then Some 3
  else None.

(** [process.env.X || d]. *)
Definition env_or (env : gmap string string) (name default_value : string) : string :=
  match env !! name with
  | Some v => if String.eqb v "" then default_value else v
  | None => default_value
  end.

(** The array index a member name stands for, if it is one: a decimal
    numeral without leading zero, below [2^32 - 1]. *)
Definition digit (c : Ascii.ascii) : option N :=
  let n := Ascii.N_of_ascii c in
  if (48 <=? n)%N && (n <=? 57)%N then Some (n - 48)%N else None.

Fixpoint numeral (acc : N) (s : string) : option N :=
  match s with
  | EmptyString => Some acc
  | String c s' =>
      match digit c with
      | Some d => numeral (10 * acc + d)%N s'
      | None => None
      end
  end.

Definition array_index (k : string) : option N :=
  match k with
  | EmptyString => None
  | String c rest =>
      if Ascii.eqb c "0" && negb (String.eqb rest "") then None
      else match numeral 0 k with
           | Some n => if (n <? 4294967295)%N then Some n else None
           | None => None
           end
  end.

(** Writing a member of an object. An existing key keeps its place and takes
    the new value. A new key that is an array index goes among the indices,
    which come first in ascending order; any other new key goes last. *)
Fixpoint replace_member (k : string) (v : Js.value) (ms : list (string * Js.value))
    : list (string * Js.value) :=
  match ms with
  | [] => []
  | (k', v') :: ms' =>
      if String.eqb k k' then (k, v) :: ms' else (k', v') :: replace_member k v ms'
  end.

Fixpoint insert_index (n : N) (k : string) (v : Js.value) (ms : list (string * Js.value))
    : list (string * Js.value) :=
  match ms with
  | [] => [(k, v)]
  | (k', v') :: ms' =>
      match array_index k' with
      | Some n' =>
          if (n' <? n)%N then (k', v') :: insert_index n k v ms' else (k, v) :: ms
      | None => (k, v) :: ms
      end
  end.

Definition set_member (k : string) (v : Js.value) (ms : list (string * Js.value))
    : list (string * Js.value) :=
  match Js.assoc k ms with
  | Some _ => replace_member k v ms
  | None =>
      match array_index k with
      | Some n => insert_index n k v ms
      | None => ms ++ [(k, v)]
      end
  end.

(** [{ ...base, ...data }] for the members of [data] in their order. *)
Definition spread (data base : list (string * Js.value)) : list (string * Js.value) :=
  foldl (fun acc kv => set_member kv.1 kv.2 acc) base data.

(** [log]: the entry handed to [console.log(JSON.stringify(entry))], or
    [None] when the level is below the configured one. A comparison of a
    number with a non-number is false, so an unrecognised [LOG_LEVEL] filters
    nothing. [now] is [new Date().toISOString()]. *)
Definition log (env : gmap string string) (now : string) (level : LogLevel)
    (message : string) (data : option (list (string * Js.value)))
    : option (list (string * Js.value)) :=
  let LOG_LEVEL := env_or env "LOG_LEVEL" "info" in
  let below :=
    match configured_threshold LOG_LEVEL with
    | Some threshold => Nat.ltb (LOG_LEVELS level) threshold
    | None => false
    end in
  if below then None
  else
    Some (spread (default [] data)
            [ ("timestamp", Js.Str now);
              ("level", Js.Str (level_name level));
              ("service", Js.Str (env_or env "SERVICE_NAME" "llm-forge"));
              ("version", Js.Str (env_or env "SERVICE_VERSION" "1.0.0"));
              ("env", Js.Str (env_or env "PLATFORM_ENV" "dev"));
              ("message", Js.Str message) ]).

(** *** Routing *)

(** [s.split(c)] for a one-character separator. *)
Fixpoint split (sep : Ascii.ascii) (s : string) : list string :=
  match s with
  | EmptyString => [EmptyString]
  | String c s' =>
      if Ascii.eqb c sep then EmptyString :: split sep s'
      else match split sep s' with
           | piece :: pieces => String c piece :: pieces
           | [] => [String c EmptyString]
           end
  end.

Inductive Agent : Type :=
| SdkGenerator
| CliGenerator
| ApiTranslator
| VersionCompatibility.

(** Where [handleRequest] sends a request. *)
Inductive Route : Type :=
| Preflight
| Health
| AgentList
| AgentStatus (agentId : option string)
| Invoke (agent : Agent)
| NotFound (method : option string) (path : string).

(** The [switch (agentId)] of the invocation branch. *)
Definition agent_of (agentId : option string) : option Agent :=
  match agentId with
  | Some "sdk-generator" => Some SdkGenerator
  | Some "cli-generator" => Some CliGenerator
  | Some "api-translator" => Some ApiTranslator
  | Some "version-compatibility" => Some VersionCompatibility
  | _ => None
  end.

Definition is_method (name : string) (method : option string) : bool :=
  match method with
  | Some m => String.eqb m name
  | None => false
  end.

(** [url?.split('?')[0] || '/']. *)
Definition path_of (url : option string) : string :=
  match url with
  | Some u =>
      let first := default EmptyString (head (split "?"%char u)) in
      if String.eqb first "" then "/" else first
  | None => "/"
  end.

(** The dispatch of [handleRequest]; the three CORS headers are set before
    it, whatever the route. *)
Definition route (method url : option string) : Route :=
  let path := path_of url in
  if is_method "OPTIONS" method then Preflight
  else if String.eqb path "/health" && is_method "GET" method then Health
  else if String.eqb path "/api/v1/agents" && is_method "GET" method then AgentList
  else if String.prefix "/api/v1/agents/" path then
    let parts := split "/"%char path in
    let agentId := parts !! 4 in
    let action := parts !! 5 in
    if bool_decide (action = Some "status") && is_method "GET" method then
      AgentStatus agentId
    else if is_method "POST" method then
      match agent_of agentId with
      | Some agent => Invoke agent
      | None => NotFound method path
      end
    else NotFound method path
  else NotFound method path.

End Service.

(** *** Agent endpoints and their execution spans *)

Module Handlers.

(** [createArtifactRef]. The hash of the content's UTF-8 bytes and their
    number come from [crypto] and [Buffer]. *)
Section Artifacts.
Variable sha256_hex : string -> string.
Variable byteLength : string -> N.

Definition createArtifactRef (uuid now : string) (label content : string)
    (contentType : option string) : ArtifactRef :=
  {| artifact_id := uuid;
     label := label;
     content_hash := sha256_hex content;
     content_type := default "application/json" contentType;
     size_bytes := byteLength content;
     created_at := now |}.

(** What one request draws from [randomUUID()] and from the clock, in the
    order of the calls. *)
Record Oracle : Type := {
  requestId : string;
  uuid_execution : string;
  uuid_repo : string;
  at_repo : string;
  uuid_agent : string;
  at_agent : string;
  uuid_artifact : string;
  at_artifact : string;
  at_settle : string;
  at_finalize : string;
  at_failure : string;
  at_recovery : string
}.

(** [req.headers['x-execution-id']] as a condition: a string counts when it
    is not empty, an array always. *)
Definition raw_truthy (h : option HeaderValue) : bool :=
  match h with
  | Some (Single s) => negb (String.eqb s "")
  | Some (Multi _) => true
  | None => false
  end.

(** The opening every agent handler shares: the headers are extracted, a
    request with an execution id and no parent span is refused, and with a
    parent span a context is created and the agent's span started. *)
Inductive Opening : Type :=
| Refused
| NoContext
| Opened (execCtx : ExecutionContext) (agentSpan : AgentSpan.t).

Definition openExecution (o : Oracle) (agentId : string) (metadata : Js.value)
    (headers : gmap string HeaderValue) : Opening :=
  let execHeaders := extractExecutionHeaders (uuid_execution o) headers in
  if raw_truthy (headers !! "x-execution-id") && negb (bool_decide (is_Some execHeaders))
  then Refused
  else
    match execHeaders with
    | Some eh =>
        let execCtx :=
          new_ExecutionContext (uuid_repo o) (at_repo o)
            (ExecutionHeaders.executionId eh) (ExecutionHeaders.parentSpanId eh) in
        let started :=
          startAgentSpan (uuid_agent o) (at_agent o) agentId (Some metadata) execCtx in
        Opened (fst started) (snd started)
    | None => NoContext
    end.

(** The result of the CLI generator, the translator and the compatibility
    agent, as far as the handlers read it. *)
Record AgentResult : Type := {
  success : bool;
  errors : option (list string)
}.

(** What the [try] block meets. An exception is either raised before the
    span is settled (reading or parsing the body, the agent itself,
    serializing its result) or by a later statement, before or after
    [buildResponse] has run. [message] is
    [error instanceof Error ? error.message : String(error)]. *)
Inductive LatePoint : Type :=
| BeforeEnvelope
| AfterEnvelope.

Inductive Outcome : Type :=
| ThrownEarly (message : string)
| Produced (result : AgentResult) (resultJson : string)
    (late : option (LatePoint * string)).

Inductive Payload : Type :=
| AgentPayload (result : AgentResult)
| SdkPayload (parsed : Js.value)
| FailurePayload (code message : string).

Inductive Body : Type :=
| Serialized (json : string)
| Envelope (result : Payload) (execution : RepoSpan.t)
| ErrorBody (code message : string).

(** [trace] is the pair of the headers [X-Execution-Id] and
    [X-Repo-Span-Id], written on the regular path of a request with a
    context. *)
Record Reply : Type := {
  statusCode : N;
  trace : option (string * string);
  body : Body
}.

Record Endpoint : Type := {
  AGENT_ID : string;
  AGENT_VERSION : string;
  classification : string;
  artifact_label : string;
  fallback_reason : string;
  failure_message : string
}.

Definition cli_generator (CLI_AGENT_ID CLI_AGENT_VERSION : string) : Endpoint :=
  {| AGENT_ID := CLI_AGENT_ID;
     AGENT_VERSION := CLI_AGENT_VERSION;
     classification := "GENERATION";
     artifact_label := "cli-generation-result";
     fallback_reason := "Generation failed";
     failure_message := "CLI generation failed" |}.

Definition api_translator (TRANSLATOR_AGENT_ID TRANSLATOR_AGENT_VERSION : string) : Endpoint :=
  {| AGENT_ID := TRANSLATOR_AGENT_ID;
     AGENT_VERSION := TRANSLATOR_AGENT_VERSION;
     classification := "TRANSLATION";
     artifact_label := "api-translation-result";
     fallback_reason := "Translation failed";
     failure_message := "API translation failed" |}.

Definition version_compatibility (VC_AGENT_ID VC_AGENT_VERSION : string) : Endpoint :=
  {| AGENT_ID := VC_AGENT_ID;
     AGENT_VERSION := VC_AGENT_VERSION;
     classification := "VALIDATION";
     artifact_label := "compatibility-analysis-result";
     fallback_reason := "Analysis failed";
     failure_message := "Compatibility analysis failed" |}.

Definition span_metadata (ep : Endpoint) : Js.value :=
  Js.Obj [("version", Js.Str (AGENT_VERSION ep));
          ("classification", Js.Str (classification ep))].

(** [(result.errors ?? []).join('; ') || fallback]. *)
Definition failure_reason_of (fallback : string) (result : AgentResult) : string :=
  let joined := String.concat "; " (default [] (errors result)) in
  if String.eqb joined "" then fallback else joined.

(** The [catch] block of a handler whose request has a context: the agent's
    span (the first and only one, at position 0) is failed and the error
    envelope sent with status 500. *)
Definition recover (o : Oracle) (failure : string) (message : string)
    (execCtx : ExecutionContext) : Reply :=
  let failed := failAgentSpan (at_failure o) 0 message execCtx in
  let built := buildResponse (at_recovery o) (FailurePayload "INTERNAL_ERROR" failure) failed in
  {| statusCode := 500;
     trace := None;
     body := Envelope (result (snd built)) (execution (snd built)) |}.

Definition internal_error (failure : string) : Reply :=
  {| statusCode := 500;
     trace := None;
     body := ErrorBody "INTERNAL_ERROR" failure |}.

Definition missing_parent_span : Reply :=
  {| statusCode := 400;
     trace := None;
     body := ErrorBody "MISSING_PARENT_SPAN" "X-Parent-Span-Id header is required" |}.

(** [handleCLIGenerator], [handleAPITranslator] and
    [handleVersionCompatibility]: the same statements around the agent's
    call, with the constants of the endpoint. *)
Definition handleAgent (ep : Endpoint) (o : Oracle)
    (headers : gmap string HeaderValue) (outcome : Outcome) : Reply :=
  match openExecution o (AGENT_ID ep) (span_metadata ep) headers with
  | Refused => missing_parent_span
  | NoContext =>
      match outcome with
      | Produced produced resultJson None =>
          {| statusCode := if success produced then 200 else 400;
             trace := None;
             body := Serialized resultJson |}
      | _ => internal_error (failure_message ep)
      end
  | Opened execCtx agentSpan =>
      match outcome with
      | ThrownEarly message => recover o (failure_message ep) message execCtx
      | Produced produced resultJson late =>
          let artifact :=
            createArtifactRef (uuid_artifact o) (at_artifact o)
              (artifact_label ep) resultJson None in
          let attached := attachArtifact 0 artifact execCtx in
          let settled :=
            if success produced then completeAgentSpan (at_settle o) 0 attached
            else failAgentSpan (at_settle o) 0
                   (failure_reason_of (fallback_reason ep) produced) attached in
          match late with
          | Some (BeforeEnvelope, message) =>
              recover o (failure_message ep) message settled
          | Some (AfterEnvelope, message) =>
              recover o (failure_message ep) message (finalize (at_finalize o) settled)
          | None =>
              let built := buildResponse (at_finalize o) (AgentPayload produced) settled in
              {| statusCode := if success produced then 200 else 400;
                 trace := Some (executionId (fst built),
                                RepoSpan.span_id (repoSpan (fst built)));
                 body := Envelope (result (snd built)) (execution (snd built)) |}
          end
      end
  end.

(** [handleSDKGenerator]: the agent answers with a status code and a body.
    [JSON_parse] is [JSON.parse] of that body, whose exception carries the
    message [parse_error]. *)
Inductive SdkOutcome : Type :=
| SdkThrownEarly (message : string)
| SdkResponded (code : N) (responseBody : string)
    (late : option (LatePoint * string)).

Variable JSON_parse : string -> option Js.value.
Variable parse_error : string -> string.

(** [res.writeHead] takes the status codes from 100 to 999 and throws a
    [RangeError] with this message for any other. The agents' handlers
    write 200, 400 or 500; the SDK handler writes the code of the agent. *)
Definition valid_status (code : N) : bool :=
  (100 <=? code)%N && (code <=? 999)%N.

Definition invalid_status_message (code : N) : string :=
  "Invalid status code: " +:+ pretty code.

Definition handleSDKGenerator (SDK_AGENT_ID SDK_AGENT_VERSION : string) (o : Oracle)
    (headers : gmap string HeaderValue) (outcome : SdkOutcome) : Reply :=
  let metadata :=
    Js.Obj [("version", Js.Str SDK_AGENT_VERSION);
            ("classification", Js.Str "GENERATION")] in
  match openExecution o SDK_AGENT_ID metadata headers with
  | Refused => missing_parent_span
  | NoContext =>
      match outcome with
      | SdkResponded code responseBody None =>
          if valid_status code
          then {| statusCode := code; trace := None; body := Serialized responseBody |}
          else internal_error "SDK generation failed"
      | _ => internal_error "SDK generation failed"
      end
  | Opened execCtx agentSpan =>
      match outcome with
      | SdkThrownEarly message => recover o "SDK generation failed" message execCtx
      | SdkResponded code responseBody late =>
          let artifact :=
            createArtifactRef (uuid_artifact o) (at_artifact o)
              "sdk-generation-result" responseBody None in
          let attached := attachArtifact 0 artifact execCtx in
          let settled :=
            if (200 <=? code)%N && (code <? 400)%N
            then completeAgentSpan (at_settle o) 0 attached
            else failAgentSpan (at_settle o) 0 ("HTTP " +:+ pretty code) attached in
          match late with
          | Some (BeforeEnvelope, message) =>
              recover o "SDK generation failed" message settled
          | Some (AfterEnvelope, message) =>
              recover o "SDK generation failed" message (finalize (at_finalize o) settled)
          | None =>
              match JSON_parse responseBody with
              | None =>
                  recover o "SDK generation failed" (parse_error responseBody) settled
              | Some parsed =>
                  let built := buildResponse (at_finalize o) (SdkPayload parsed) settled in
                  if valid_status code
                  then {| statusCode := code;
                          trace := Some (executionId (fst built),
                                         RepoSpan.span_id (repoSpan (fst built)));
                          body := Envelope (result (snd built)) (execution (snd built)) |}
                  else recover o "SDK generation failed"
                         (invalid_status_message code) (fst built)
              end
          end
      end
  end.

End Artifacts.
End Handlers.

(** ** Vocabulary of the further properties *)

#[global] Instance StreamEventType_eq_dec : EqDecision StreamEventType.
Proof. solve_decision. Defined.

(** The span an operation is given, if any. *)
Definition target (op : operation) : option span_ref :=
  match op with
  | CompleteAgentSpan _ span | FailAgentSpan _ span _ | AttachArtifact span _ => Some span
  | _ => None
  end.

(** A string without the character [sep]. *)
Fixpoint free_of (sep : Ascii.ascii) (s : string) : bool :=
  match s with
  | EmptyString => true
  | String c s' => negb (Ascii.eqb c sep) && free_of sep s'
  end.

(** The routes' names of the agents. *)
Definition agent_id (agent : Service.Agent) : string :=
  match agent with
  | Service.SdkGenerator => "sdk-generator"
  | Service.CliGenerator => "cli-generator"
  | Service.ApiTranslator => "api-translator"
  | Service.VersionCompatibility => "version-compatibility"
  end.

(** The two tests a choice goes through in the loop of the parsers. *)
Definition has_content (choice : Js.value) : bool :=
  Js.truthy (Js.field "content" (Js.field "delta" choice)).

Definition has_finish_reason (choice : Js.value) : bool :=
  Js.truthy (Js.field "finish_reason" choice).

Definition has_tool_calls (choice : Js.value) : bool :=
  Js.truthy (Js.field "tool_calls" (Js.field "delta" choice)).

Definition count_type (t : StreamEventType) (events : list StreamChunk) : nat :=
  length (List.filter (fun e => bool_decide (type e = t)) events).

(** The message of the exception an outcome carries. *)
Definition thrown (outcome : Handlers.Outcome) : option string :=
  match outcome with
  | Handlers.ThrownEarly message => Some message
  | Handlers.Produced _ _ (Some (_, message)) => Some message
  | Handlers.Produced _ _ None => None
  end.

(** The span a handler's context holds when the request came with a parent
    span: the one started for the agent. *)
Definition opened_context (o : Handlers.Oracle) (agentId : string) (metadata : Js.value)
    (eh : ExecutionHeaders.t) : ExecutionContext * AgentSpan.t :=
  startAgentSpan (Handlers.uuid_agent o) (Handlers.at_agent o) agentId (Some metadata)
    (new_ExecutionContext (Handlers.uuid_repo o) (Handlers.at_repo o)
       (ExecutionHeaders.executionId eh) (ExecutionHeaders.parentSpanId eh)).

Definition is_container (v : Js.value) : bool :=
  match v with
  | Js.Arr _ | Js.Obj _ => true
  | _ => false
  end.

(** ** Inputs of the further runs *)

Module Sample.

(** One agent started and completed, the context not yet finalized. *)
Definition ops : list operation :=
  [ StartAgentSpan "a-1" "2026-01-01T00:00:00.500Z" "agent-1" None;
    CompleteAgentSpan "2026-01-01T00:00:01.000Z" 0 ].

Definition artifact : ArtifactRef :=
  {| artifact_id := "f-1";
     label := "output";
     content_hash := "";
     content_type := "application/json";
     size_bytes := 15;
     created_at := "2026-01-01T00:00:01.500Z" |}.

(** A request with both execution headers. *)
Definition headers : gmap string HeaderValue :=
  {[ "x-parent-span-id" := Single "span-456"; "x-execution-id" := Single "exec-123" ]}.

Definition oracle : Handlers.Oracle :=
  {| Handlers.requestId := "q-1";
     Handlers.uuid_execution := Run.uuid;
     Handlers.uuid_repo := "r-1";
     Handlers.at_repo := "2026-01-01T00:00:00.000Z";
     Handlers.uuid_agent := "a-1";
     Handlers.at_agent := "2026-01-01T00:00:00.100Z";
     Handlers.uuid_artifact := "f-1";
     Handlers.at_artifact := "2026-01-01T00:00:00.200Z";
     Handlers.at_settle := "2026-01-01T00:00:00.300Z";
     Handlers.at_finalize := "2026-01-01T00:00:00.400Z";
     Handlers.at_failure := "2026-01-01T00:00:00.500Z";
     Handlers.at_recovery := "2026-01-01T00:00:00.600Z" |}.

(** Stand-ins for the digest and the byte count. *)
Definition digest (content : string) : string := "".
Definition bytes (content : string) : N := N.of_nat (String.length content).

(** The choices of scenario B. *)
Definition choices : list Js.value :=
  [ Js.Obj [("index", Js.Num 0); ("delta", Js.Obj [("content", Js.Str "Hi")])];
    Js.Obj [("index", Js.Num 0); ("delta", Js.Obj []); ("finish_reason", Js.Str "stop")] ].

(** A tool call with arguments cut short, and a parser that rejects them. *)
Definition cut_tool_call : Js.value :=
  Js.Obj [("id", Js.Str "call_1");
          ("function", Js.Obj [("name", Js.Str "lookup"); ("arguments", Js.Str "{")])].

Definition rejecting_parse (text : Js.value) : Js.completion Js.value :=
  Js.Throw Js.SyntaxError.

End Sample.

(** * Properties *)

(** ** Validation of a Hugging Face chunk *)

Section HuggingFaceValidation.
Import Js.

Lemma validate_object (ms : list (string * value)) :
  HuggingFace.validateStreamChunk (Obj ms) =
  Normal (Shape.accepted_members ms,
          if Shape.accepted_members ms then []
          else ["Invalid chunk: unrecognized format"]).
Proof.
  unfold HuggingFace.validateStreamChunk, Shape.accepted_members, Shape.present.
  cbn [truthy typeof_object negb orb get has bind].
  destruct (truthy (default Undefined (assoc "error" ms))); [reflexivity|].
  destruct (bool_decide (is_Some (assoc "token" ms))); [reflexivity|].
  destruct (bool_decide (is_Some (assoc "choices" ms))); cbn [bind orb andb].
  - destruct (isArray (default Undefined (assoc "choices" ms))); [reflexivity|].
    destruct (bool_decide (is_Some (assoc "generated_text" ms))); [reflexivity|].
    cbn [bind orb].
    destruct (bool_decide (is_Some (assoc "conversation" ms))); reflexivity.
  - destruct (bool_decide (is_Some (assoc "generated_text" ms))); [reflexivity|].
    cbn [bind orb].
    destruct (bool_decide (is_Some (assoc "conversation" ms))); reflexivity.
Qed.

Lemma validate_not_object (chunk : value) :
  (forall ms, chunk <> Obj ms) ->
  exists diagnostics, HuggingFace.validateStreamChunk chunk = Normal (false, diagnostics).
Proof.
  intros Hno. destruct chunk as [| |b|q|s|items|ms]; try (eexists; reflexivity).
  - destruct b; eexists; reflexivity.
  - unfold HuggingFace.validateStreamChunk. cbn [truthy typeof_object].
    rewrite orb_true_r. eexists; reflexivity.
  - unfold HuggingFace.validateStreamChunk. cbn [truthy typeof_object].
    rewrite orb_true_r. eexists; reflexivity.
  - now destruct (Hno ms).
Qed.

(** The validator never throws. *)
Lemma validate_total (chunk : value) :
  HuggingFace.accepts chunk \/ HuggingFace.rejects chunk.
Proof.
  destruct chunk as [| |b|q|s|items|ms].
  7: { unfold HuggingFace.accepts, HuggingFace.rejects.
       rewrite validate_object.
       destruct (Shape.accepted_members ms); [left|right]; eexists; reflexivity. }
  all: right; apply validate_not_object; discriminate.
Qed.

Lemma accepts_rejects_exclusive (chunk : value) :
  HuggingFace.accepts chunk -> HuggingFace.rejects chunk -> False.
Proof. intros [d1 H1] [d2 H2]. congruence. Qed.

Lemma accepts_members (chunk : value) :
  HuggingFace.accepts chunk <->
  exists ms, chunk = Obj ms /\ Shape.accepted_members ms = true.
Proof.
  split.
  - intros [d Hd]. destruct chunk as [| |b|q|s|items|ms].
    7: { exists ms. split; [reflexivity|].
         rewrite validate_object in Hd. congruence. }
    all: match type of Hd with
         | HuggingFace.validateStreamChunk ?c = _ =>
             destruct (validate_not_object c ltac:(discriminate)) as [d' Hd'];
             congruence
         end.
  - intros (ms & -> & Hms). eexists. rewrite validate_object, Hms. reflexivity.
Qed.

Lemma present_has_field (k : string) (ms : list (string * value)) :
  Shape.present k ms = true <-> has_field k (Obj ms).
Proof.
  unfold Shape.present, has_field. rewrite bool_decide_eq_true. split.
  - intros H. exists ms. auto.
  - intros (ms' & [= <-] & H). exact H.
Qed.

Lemma accepted_members_shape (ms : list (string * value)) :
  Shape.accepted_members ms = true <-> Shape.accepted (Obj ms).
Proof.
  unfold Shape.accepted_members, Shape.accepted.
  rewrite !orb_true_iff, andb_true_iff, !present_has_field. cbn [field]. tauto.
Qed.

Lemma accepted_is_object (chunk : value) :
  Shape.accepted chunk -> exists ms, chunk = Obj ms.
Proof.
  intros [H|[H|[[H _]|[H|H]]]].
  - destruct chunk; try discriminate H. eauto.
  - destruct H as (ms & -> & _); eauto.
  - destruct H as (ms & -> & _); eauto.
  - destruct H as (ms & -> & _); eauto.
  - destruct H as (ms & -> & _); eauto.
Qed.

Lemma accepts_iff_accepted (chunk : value) :
  HuggingFace.accepts chunk <-> Shape.accepted chunk.
Proof.
  rewrite accepts_members. split.
  - intros (ms & -> & H). now apply accepted_members_shape.
  - intros H. destruct (accepted_is_object _ H) as [ms ->].
    exists ms. split; [reflexivity|]. now apply accepted_members_shape.
Qed.

Lemma accepted_has_any_field (chunk : value) :
  Shape.accepted chunk -> Shape.has_any_field chunk.
Proof.
  intros [H|H]; [left|right; exact H].
  destruct chunk as [| |b|q|s|items|ms]; try discriminate H.
  exists ms. split; [reflexivity|]. cbn [field] in H.
  destruct (assoc "error" ms); [eauto|discriminate H].
Qed.

End HuggingFaceValidation.

(** ** Property reads *)

Section Reads.
Import Js.

Lemma get_readable (k : string) (v : value) :
  Shape.readable v = true -> get k v = Normal (field k v).
Proof. destruct v; intros H; try discriminate H; reflexivity. Qed.

Lemma get_unreadable (k : string) (v : value) :
  Shape.readable v = false -> get k v = Throw TypeError.
Proof. destruct v; intros H; try discriminate H; reflexivity. Qed.

Lemma get_opt_field (k : string) (v : value) :
  get_opt k v = Normal (field k v).
Proof. destruct v; reflexivity. Qed.

Lemma truthy_field_readable (k : string) (v : value) :
  truthy (field k v) = true -> Shape.readable v = true.
Proof. destruct v; intros H; try discriminate H; reflexivity. Qed.

Lemma has_object (k : string) (ms : list (string * value)) :
  has k (Obj ms) = Normal (Shape.present k ms).
Proof. reflexivity. Qed.

End Reads.

(** ** When the Hugging Face parser throws *)

Section HuggingFaceParse.
Import Js.
Context `{base : BaseProviderParser}.

Lemma parseChoice_readable (choice : value) :
  Shape.readable choice = true ->
  exists events, HuggingFace.parseChoice choice = Normal events.
Proof.
  intros Hr. unfold HuggingFace.parseChoice.
  rewrite !(get_readable _ choice Hr). cbn [bind].
  rewrite get_opt_field. cbn [bind].
  destruct (truthy (field "content" (field "delta" choice))) eqn:Hc.
  - rewrite (get_readable "content" _ (truthy_field_readable _ _ Hc)). cbn [bind].
    destruct (truthy (field "finish_reason" choice)); cbn [bind]; eauto.
  - cbn [bind]. destruct (truthy (field "finish_reason" choice)); cbn [bind]; eauto.
Qed.

Lemma parseChoice_unreadable (choice : value) :
  Shape.readable choice = false ->
  HuggingFace.parseChoice choice = Throw TypeError.
Proof.
  intros Hr. unfold HuggingFace.parseChoice.
  now rewrite (get_unreadable _ choice Hr).
Qed.

Lemma parseChoices_readable (choices : list value) :
  forallb Shape.readable choices = true ->
  exists events, HuggingFace.parseChoices choices = Normal events.
Proof.
  induction choices as [|c cs IH]; cbn [forallb HuggingFace.parseChoices].
  - eauto.
  - intros [Hc Hcs]%andb_true_iff.
    destruct (parseChoice_readable c Hc) as [e1 ->].
    destruct (IH Hcs) as [e2 ->]. cbn [bind]. eauto.
Qed.

Lemma parseChoices_unreadable (choices : list value) :
  forallb Shape.readable choices = false ->
  HuggingFace.parseChoices choices = Throw TypeError.
Proof.
  induction choices as [|c cs IH]; cbn [forallb HuggingFace.parseChoices].
  - discriminate.
  - destruct (Shape.readable c) eqn:Hc; cbn [andb].
    + intros Hcs. destruct (parseChoice_readable c Hc) as [e1 ->].
      cbn [bind]. now rewrite (IH Hcs).
    + intros _. now rewrite (parseChoice_unreadable c Hc).
Qed.

Lemma parseToken_object (ms : list (string * value)) :
  exists events, HuggingFace.parseToken (Obj ms) = Normal events.
Proof.
  unfold HuggingFace.parseToken.
  rewrite (get_readable "token" (Obj ms) eq_refl). cbn [bind].
  rewrite get_opt_field. cbn [bind].
  destruct (truthy (field "text" (field "token" (Obj ms)))) eqn:Ht; [|eauto].
  rewrite (get_readable "text" _ (truthy_field_readable _ _ Ht)). cbn [bind]. eauto.
Qed.

Lemma isFinalChunk_object (ms : list (string * value)) :
  exists final, HuggingFace.isFinalChunk (Obj ms) = Normal final.
Proof.
  unfold HuggingFace.isFinalChunk.
  rewrite !(get_readable _ (Obj ms) eq_refl). cbn [bind].
  destruct (truthy (field "generated_text" (Obj ms))); [eauto|].
  rewrite get_opt_field. cbn [bind]. eauto.
Qed.

Lemma absent_field (k : string) (ms : list (string * value)) :
  Shape.present k ms = false -> field k (Obj ms) = Undefined.
Proof.
  unfold Shape.present. cbn [field]. intros H%bool_decide_eq_false.
  destruct (assoc k ms); [|reflexivity]. destruct H. eauto.
Qed.

(** The method on an object, with the format decided. *)
Lemma parseStreamChunk_object_eq (ms : list (string * value)) :
  HuggingFace.parseStreamChunk (Obj ms) =
  (chunks <-
     (if Shape.present "choices" ms && isArray (field "choices" (Obj ms)) then
        choices <- iterate (field "choices" (Obj ms)) ;;
        HuggingFace.parseChoices choices
      else if Shape.present "token" ms then HuggingFace.parseToken (Obj ms)
      else Normal []) ;;
   isComplete <- HuggingFace.isFinalChunk (Obj ms) ;;
   Normal {| Unified.id := or_else (field "id" (Obj ms)) (Str generateId);
             Unified.provider := provider;
             Unified.model := extractModelInfo (Obj ms);
             Unified.chunks := chunks;
             Unified.metadata := {| timestamp := getCurrentTimestamp;
                                    complete := Some isComplete |};
             Unified.error := extractError (Obj ms) |}).
Proof.
  unfold HuggingFace.parseStreamChunk.
  rewrite !has_object, !(get_readable _ (Obj ms) eq_refl). cbn [bind].
  destruct (Shape.present "choices" ms); reflexivity.
Qed.

(** On an object, the parser throws exactly when [choices] is an array with
    an element that is [null] or [undefined]. *)
Lemma parseStreamChunk_object (ms : list (string * value)) :
  match field "choices" (Obj ms) with
  | Arr items =>
      if forallb Shape.readable items
      then exists response, HuggingFace.parseStreamChunk (Obj ms) = Normal response
      else HuggingFace.parseStreamChunk (Obj ms) = Throw TypeError
  | _ => exists response, HuggingFace.parseStreamChunk (Obj ms) = Normal response
  end.
Proof.
  rewrite parseStreamChunk_object_eq.
  destruct (isFinalChunk_object ms) as [final ->].
  assert (Hrest : exists events,
            (if Shape.present "token" ms then HuggingFace.parseToken (Obj ms)
             else Normal []) = Normal events).
  { destruct (Shape.present "token" ms); [apply parseToken_object|eauto]. }
  destruct (Shape.present "choices" ms) eqn:Hp.
  - cbn [andb].
    destruct (field "choices" (Obj ms)) as [| |b|q|s|items|ms'];
      cbn [isArray iterate bind];
      try (destruct Hrest as [events ->]; cbn [bind]; eauto).
    destruct (forallb Shape.readable items) eqn:Hitems.
    + destruct (parseChoices_readable items Hitems) as [events ->].
      cbn [bind]. eauto.
    + now rewrite (parseChoices_unreadable items Hitems).
  - rewrite (absent_field _ _ Hp). cbn [andb].
    destruct Hrest as [events ->]. cbn [bind]. eauto.
Qed.

End HuggingFaceParse.

(** ** The validate/parse contract of the Hugging Face methods *)

Section HuggingFaceContract.
Import Js.
Context `{base : BaseProviderParser}.

Lemma unreadable_iff (items : list value) :
  forallb Shape.readable items = false <-> Null ∈ items \/ Undefined ∈ items.
Proof.
  induction items as [|item items IH]; cbn [forallb].
  - split; [discriminate|]. intros [H|H]; inversion H.
  - rewrite andb_false_iff, IH, !elem_of_cons. split.
    + intros [Hitem|[H|H]]; [|tauto..]. destruct item; try discriminate; auto.
    + intros [[<-|H]|[<-|H]]; auto.
Qed.

(** X30: for a chunk the validator accepts, [parseStreamChunk] throws, a
    [TypeError], exactly when the chunk's [choices] is an array holding
    [null] or [undefined], and returns a response exactly when it is not. *)
Theorem parseStreamChunk_validated_throws_iff (chunk : value) :
  HuggingFace.accepts chunk ->
  (HuggingFace.parseStreamChunk chunk = Throw TypeError <->
   exists items, field "choices" chunk = Arr items /\
                 (Null ∈ items \/ Undefined ∈ items)) /\
  ((exists response, HuggingFace.parseStreamChunk chunk = Normal response) <->
   ~ exists items, field "choices" chunk = Arr items /\
                   (Null ∈ items \/ Undefined ∈ items)).
Proof.
  intros (ms & -> & _)%accepts_members.
  pose proof (parseStreamChunk_object ms) as H.
  destruct (field "choices" (Obj ms)) as [| |b|q|s|items|ms'].
  1-5,7: destruct H as [response H]; rewrite H; split;
    [ split; [discriminate|intros (items & [=] & _)]
    | split; [intros _ (items & [=] & _)|eauto] ].
  pose proof (unreadable_iff items) as Hiff.
  destruct (forallb Shape.readable items).
  - destruct H as [response H]. rewrite H. split.
    + split; [discriminate|]. intros (items' & [= <-] & Hin).
      apply Hiff in Hin. discriminate Hin.
    + split; [|eauto]. intros _ (items' & [= <-] & Hin).
      apply Hiff in Hin. discriminate Hin.
  - rewrite H. split.
    + split; [|reflexivity]. intros _. exists items. split; [reflexivity|].
      now apply Hiff.
    + split.
      * intros [response [=]].
      * intros Hno. destruct Hno. exists items. split; [reflexivity|]. now apply Hiff.
Qed.

(** Whenever the method returns, the response carries what [extractError]
    finds in the chunk. *)
Lemma parseStreamChunk_error_attached (chunk : value) (response : Unified.StreamResponse) :
  HuggingFace.parseStreamChunk chunk = Normal response ->
  Unified.error response = extractError chunk.
Proof.
  unfold HuggingFace.parseStreamChunk.
  repeat match goal with
         | |- (_ <- ?c ;; _) = _ -> _ =>
             let x := fresh "x" in destruct c as [x|]; [cbn [bind]|discriminate]
         end.
  now intros [= <-].
Qed.

Example parseStreamChunk_scenario_C :
  exists response,
    HuggingFace.parseStreamChunk Scenario.C = Normal response /\
    complete (Unified.metadata response) = Some true /\
    Unified.chunks response = [].
Proof. eexists. repeat split. Qed.

(** C6: on the token chunk [{"token": {"text": "Hello"}}], for which the
    inherited [extractError] finds no error, [parseStreamChunk] returns a
    response whose events are exactly one [content_block_delta] with text
    ["Hello"], and whose error is unset. *)
Theorem parseStreamChunk_token_chunk :
  extractError Scenario.A = None ->
  exists response,
    HuggingFace.parseStreamChunk Scenario.A = Normal response /\
    Unified.chunks response =
      [ {| type := content_block_delta;
           delta := Some (TextDelta (Str "Hello"));
           contentBlock := None;
           index := None |} ] /\
    Unified.error response = None.
Proof.
  intros Herr. eexists. split; [reflexivity|]. split; [reflexivity|].
  exact Herr.
Qed.

End HuggingFaceContract.

Lemma parseStreamChunk_token_chunk_witness :
  extractError (BaseProviderParser := Fixture.base "huggingface") Scenario.A = None /\
  exists response,
    HuggingFace.parseStreamChunk (base := Fixture.base "huggingface") Scenario.A
      = Js.Normal response /\
    Unified.chunks response =
      [ {| type := content_block_delta;
           delta := Some (TextDelta (Js.Str "Hello"));
           contentBlock := None;
           index := None |} ] /\
    Unified.error response = None.
Proof.
  split; [reflexivity|].
  apply (parseStreamChunk_token_chunk (base := Fixture.base "huggingface")).
  reflexivity.
Defined.

Example parseStreamChunk_scenario_D :
  HuggingFace.accepts Scenario.D /\
  exists response,
    HuggingFace.parseStreamChunk (base := Fixture.base "huggingface") Scenario.D
      = Js.Normal response /\
    Unified.chunks response = [] /\
    kind <$> Unified.error response = Some EK_rate_limit.
Proof.
  split; [eexists; reflexivity|]. eexists. repeat split.
Qed.

(** C2, as stated, fails on [{"error": null}]: the chunk has an [error]
    field and is rejected. *)
Lemma validateStreamChunk_null_error_rejected :
  ~ (HuggingFace.accepts Scenario.null_error <->
     Shape.has_any_field Scenario.null_error).
Proof.
  intros [_ Hacc].
  apply (accepts_rejects_exclusive Scenario.null_error).
  - apply Hacc. left. eexists. split; [reflexivity|]. cbn. eauto.
  - eexists. reflexivity.
Qed.

(** C2, amended: [validateStreamChunk] returns true exactly for a chunk that
    is an object with a truthy [error] member, a [token] member, an
    array-valued [choices] member, or a [generated_text] or [conversation]
    member, and returns false (never throwing) for every other input; in
    particular it returns false for every input that has none of the five
    fields, such as [null] and [{}]. *)
Theorem validateStreamChunk_structural_or (chunk : Js.value) :
  (HuggingFace.accepts chunk <-> Shape.accepted chunk) /\
  (HuggingFace.rejects chunk <-> ~ Shape.accepted chunk) /\
  (~ Shape.has_any_field chunk -> HuggingFace.rejects chunk) /\
  HuggingFace.rejects Js.Null /\
  HuggingFace.rejects (Js.Obj []).
Proof.
  assert (Hrej : HuggingFace.rejects chunk <-> ~ Shape.accepted chunk).
  { rewrite <- accepts_iff_accepted. split.
    - intros Hr Ha. exact (accepts_rejects_exclusive _ Ha Hr).
    - intros Hn. destruct (validate_total chunk); [contradiction|assumption]. }
  split; [apply accepts_iff_accepted|]. split; [exact Hrej|]. split.
  - intros Hn. apply Hrej. intros Ha. apply Hn. now apply accepted_has_any_field.
  - split; eexists; reflexivity.
Qed.

(** ** The Together AI parser *)

Section TogetherParse.
Import Js.
Context `{base : BaseProviderParser}.

(** The method found ignores its chunk: it cannot throw, and it returns
    neither events nor an error. *)
Lemma parseStreamChunk_current_constant (chunk : value) :
  exists response,
    Together.parseStreamChunk chunk = Normal response /\
    Unified.chunks response = [] /\
    Unified.error response = None.
Proof. eexists. repeat split. Qed.

(** C4, evaluated on a chunk with a top-level [error] object next to a
    [choices] array: the response of the method found has no [error]. The
    method never reads the chunk, so the error is lost. *)
Theorem parseStreamChunk_current_omits_error :
  exists response,
    Together.parseStreamChunk Scenario.error_with_choices = Normal response /\
    Unified.error response = None.
Proof. eexists. split; reflexivity. Qed.

(** C5, evaluated on the chunk of scenario B: the method found returns an
    empty event sequence instead of the [content_block_delta] and the
    [message_stop]. *)
Theorem parseStreamChunk_current_emits_nothing :
  exists response,
    Together.parseStreamChunk Scenario.B = Normal response /\
    Unified.chunks response = [].
Proof. eexists. split; reflexivity. Qed.

Variable JSON_parse : value -> completion value.

(** The repaired method attaches what [extractError] finds, whatever else
    the chunk holds. *)
Lemma parseStreamChunk_fixed_error (chunk : value) (response : Unified.StreamResponse) :
  Together.parseStreamChunk_fixed JSON_parse chunk = Normal response ->
  Unified.error response = extractError chunk.
Proof.
  unfold Together.parseStreamChunk_fixed.
  destruct (get "choices" chunk) as [cs|]; [|discriminate]. cbn [bind].
  match goal with |- (chunks <- ?c ;; _) = _ -> _ => destruct c as [events|] end;
    [|discriminate]. cbn [bind].
  destruct (get "id" chunk) as [oid|]; [|discriminate]. cbn [bind].
  destruct (get "model" chunk) as [m|]; [|discriminate]. cbn [bind].
  now intros [= <-].
Qed.

Lemma parseStreamChunk_fixed_error_with_choices :
  exists response,
    Together.parseStreamChunk_fixed JSON_parse Scenario.error_with_choices
      = Normal response /\
    Unified.error response = extractError Scenario.error_with_choices.
Proof. eexists. split; reflexivity. Qed.

(** The repaired method on scenario B: the two events of the scenario. *)
Lemma parseStreamChunk_fixed_scenario_B :
  exists response,
    Together.parseStreamChunk_fixed JSON_parse Scenario.B = Normal response /\
    Unified.chunks response =
      [ {| type := content_block_delta;
           delta := Some (TextDelta (Str "Hi"));
           contentBlock := None;
           index := Some (Num 0) |};
        {| type := message_stop;
           delta := Some (StopDelta (normalizeStopReason (Str "stop")));
           contentBlock := None;
           index := None |} ].
Proof. eexists. split; reflexivity. Qed.

(** The repaired method shares the unguarded read of [choice.delta]. *)
Lemma parseStreamChunk_fixed_null_choice :
  Together.parseStreamChunk_fixed JSON_parse Scenario.null_choice = Throw TypeError.
Proof. reflexivity. Qed.

End TogetherParse.

(** ** Capability flags *)

Section Capabilities.
Context `{base : BaseProviderParser}.
Variables functionCalling_claimed toolUse_claimed vision_claimed : bool.

(** C3, evaluated on the audited [HuggingFaceProvider]: it is registered, its
    metadata has [streaming: true], and it has no [parseStreamChunk], so no
    chunk of any shape yields a response. *)
Theorem HuggingFaceProvider_streaming_flag_unbacked :
  HuggingFaceProvider
    ∈ registered_providers functionCalling_claimed toolUse_claimed vision_claimed /\
  streaming (capabilities (getMetadata HuggingFaceProvider)) = true /\
  parseStreamChunk_method HuggingFaceProvider = None /\
  ~ metadata_truthful HuggingFaceProvider.
Proof.
  split; [apply list_elem_of_here|]. split; [reflexivity|]. split; [reflexivity|].
  intros H. destruct (H eq_refl) as (parse & _ & _ & Hparse & _).
  discriminate Hparse.
Qed.

(** C1: for every chunk for which the [validateStreamChunk] of the Together
    AI class returns true, the class's [parseStreamChunk], the method found,
    does not raise: it returns a response. The method never reads its chunk,
    so the response is the same whatever was validated, and its event
    sequence is empty. *)
Theorem parseStreamChunk_returns_on_validated (chunk : Js.value) :
  validates (TogetherProvider functionCalling_claimed toolUse_claimed vision_claimed)
    chunk ->
  exists parse response,
    parseStreamChunk_method
      (TogetherProvider functionCalling_claimed toolUse_claimed vision_claimed)
      = Some parse /\
    parse chunk = Js.Normal response /\
    Unified.chunks response = [].
Proof.
  intros _. exists Together.parseStreamChunk. eexists.
  split; [reflexivity|]. split; reflexivity.
Qed.

(** The Together AI class backs its flag, if only with an empty response. *)
Lemma TogetherProvider_streaming_flag_backed :
  metadata_truthful
    (TogetherProvider functionCalling_claimed toolUse_claimed vision_claimed).
Proof.
  intros _. exists Together.parseStreamChunk, Scenario.B.
  eexists. split; [reflexivity|]. split; reflexivity.
Qed.

End Capabilities.

(** ** Finish reasons *)

(** C7: for every mapping table and every finish-reason string,
    [normalizeStopReason] yields exactly one reason, a member of the closed
    enumeration; a string the table maps yields the mapped reason and a
    string it does not map yields [unknown]. Being a function into the
    enumeration, it has no failing case. *)
Theorem normalizeStopReason_total
    (table : gmap string NormalizedStopReason) (reason : string) :
  (exists! r, FinishReason.normalizeStopReason table reason = r /\
              r ∈ FinishReason.closed_enumeration) /\
  (forall r, table !! reason = Some r ->
             FinishReason.normalizeStopReason table reason = r) /\
  (table !! reason = None ->
   FinishReason.normalizeStopReason table reason = SR_unknown).
Proof.
  split; [|split].
  - exists (FinishReason.normalizeStopReason table reason). split.
    + split; [reflexivity|].
      unfold FinishReason.closed_enumeration.
      destruct (FinishReason.normalizeStopReason table reason);
        repeat (first [apply list_elem_of_here | apply list_elem_of_further]).
    + now intros r [<- _].
  - intros r Hr. unfold FinishReason.normalizeStopReason. now rewrite Hr.
  - intros Hr. unfold FinishReason.normalizeStopReason. now rewrite Hr.
Qed.

(** ** Finalizing an execution context *)

Section Finalize.

Lemma finalize_keeps_spans (now : string) (ctx : ExecutionContext) :
  RepoSpan.agent_spans (repoSpan (finalize now ctx)) = RepoSpan.agent_spans (repoSpan ctx) /\
  RepoSpan.span_id (repoSpan (finalize now ctx)) = RepoSpan.span_id (repoSpan ctx) /\
  RepoSpan.end_time (repoSpan (finalize now ctx)) = Some now.
Proof.
  unfold finalize. case_bool_decide; [repeat split|].
  destruct (existsb is_failed _); repeat split.
Qed.

Lemma filter_is_failed (spans : list AgentSpan.t) :
  List.filter is_failed spans = filter (fun s => AgentSpan.status s = FAILED) spans.
Proof.
  induction spans as [|s spans IH]; [reflexivity|].
  cbn [List.filter]. rewrite filter_cons, IH. unfold is_failed.
  destruct (decide (AgentSpan.status s = FAILED)) as [Hs|Hs].
  - now rewrite (bool_decide_eq_true_2 _ Hs).
  - now rewrite (bool_decide_eq_false_2 _ Hs).
Qed.

Lemma any_failed_iff (spans : list AgentSpan.t) :
  existsb is_failed spans = true <->
  exists s, s ∈ spans /\ AgentSpan.status s = FAILED.
Proof.
  rewrite existsb_exists. unfold is_failed. split.
  - intros (s & Hin & Hs). exists s. split.
    + now apply list_elem_of_In.
    + now apply bool_decide_eq_true in Hs.
  - intros (s & Hin & Hs). exists s. split.
    + now apply list_elem_of_In.
    + now apply bool_decide_eq_true.
Qed.

(** C8: [finalize] stamps the repo span's [end_time] and keeps every agent
    span. Without agent spans the status is [FAILED] with the reason
    ["No agent spans produced"]. With agent spans the status is [FAILED]
    exactly when some agent span is [FAILED], and [COMPLETED] otherwise; the
    reason of a failure is made of one line for each agent span whose status
    is [FAILED], in the order of the spans, joined by ["; "], a line being
    the span's [agent_name], a colon and a space, and the span's
    [failure_reason], printed as [undefined] when the span has none. *)
Theorem finalize_status (now : string) (ctx : ExecutionContext) :
  RepoSpan.end_time (repoSpan (finalize now ctx)) = Some now /\
  RepoSpan.agent_spans (repoSpan (finalize now ctx))
    = RepoSpan.agent_spans (repoSpan ctx) /\
  (RepoSpan.agent_spans (repoSpan ctx) = [] ->
     RepoSpan.status (repoSpan (finalize now ctx)) = FAILED /\
     RepoSpan.failure_reason (repoSpan (finalize now ctx))
       = Some "No agent spans produced") /\
  (RepoSpan.agent_spans (repoSpan ctx) <> [] ->
     (RepoSpan.status (repoSpan (finalize now ctx)) = FAILED <->
      exists s, s ∈ RepoSpan.agent_spans (repoSpan ctx) /\
                AgentSpan.status s = FAILED) /\
     (RepoSpan.status (repoSpan (finalize now ctx)) = FAILED ->
      RepoSpan.failure_reason (repoSpan (finalize now ctx))
        = Some (String.concat "; "
                  (map (fun s => AgentSpan.agent_name s +:+ ": " +:+
                                 match AgentSpan.failure_reason s with
                                 | Some reason => reason
                                 | None => "undefined"
                                 end)
                     (filter (fun s => AgentSpan.status s = FAILED)
                        (RepoSpan.agent_spans (repoSpan ctx)))))) /\
     (RepoSpan.status (repoSpan (finalize now ctx)) <> FAILED ->
      RepoSpan.status (repoSpan (finalize now ctx)) = COMPLETED)).
Proof.
  destruct (finalize_keeps_spans now ctx) as (Hspans & _ & Hend).
  split; [exact Hend|]. split; [exact Hspans|]. split.
  - intros Hnil. unfold finalize. rewrite Hnil. split; reflexivity.
  - intros Hne. unfold finalize.
    rewrite bool_decide_eq_false_2;
      [|intros Hlen; apply Hne; now apply length_zero_iff_nil].
    pose proof (any_failed_iff (RepoSpan.agent_spans (repoSpan ctx))) as Hany.
    destruct (existsb is_failed (RepoSpan.agent_spans (repoSpan ctx))); cbn.
    + split; [|split].
      * split; [intros _; now apply Hany|reflexivity].
      * intros _. now rewrite filter_is_failed.
      * congruence.
    + split; [|split].
      * split; [discriminate|]. intros H. apply Hany in H. discriminate H.
      * discriminate.
      * reflexivity.
Qed.

End Finalize.

(** ** The span hierarchy *)

Section Hierarchy.

Lemma with_agent_spans_spans (spans : list AgentSpan.t) (ctx : ExecutionContext) :
  RepoSpan.agent_spans (repoSpan (with_agent_spans spans ctx)) = spans /\
  RepoSpan.span_id (repoSpan (with_agent_spans spans ctx)) = RepoSpan.span_id (repoSpan ctx).
Proof. split; reflexivity. Qed.

(** Mutating a span object through a reference touches none of the members
    that identify it. *)
Lemma alter_keeps_identities (f : AgentSpan.t -> AgentSpan.t) (i : nat)
    (spans : list AgentSpan.t) :
  (forall s, span_identity (f s) = span_identity s) ->
  span_identity <$> alter f i spans = span_identity <$> spans.
Proof.
  intros Hf. revert i. induction spans as [|s spans IH]; intros [|i]; cbn.
  - reflexivity.
  - reflexivity.
  - now rewrite Hf.
  - f_equal. apply IH.
Qed.

Lemma alter_keeps_nesting (repo : RepoSpan.t) (f : AgentSpan.t -> AgentSpan.t)
    (i : nat) (spans : list AgentSpan.t) :
  (forall s, span_identity (f s) = span_identity s) ->
  Forall (nested_under repo) spans ->
  Forall (nested_under repo) (alter f i spans).
Proof.
  intros Hf Hall. apply Forall_alter; [exact Hall|].
  intros s _ [Hp Hr]. specialize (Hf s). unfold span_identity in Hf.
  injection Hf as _ _ Hp' Hr' _. split; congruence.
Qed.

Lemma step_identities (op : operation) (ctx : ExecutionContext) :
  span_identities ctx `prefix_of` span_identities (step op ctx).
Proof.
  unfold span_identities.
  destruct op as [uuid now name meta|now i|now i reason|i artifact|now|now]; cbn [step].
  - cbn. rewrite fmap_app. now apply prefix_app_r.
  - unfold completeAgentSpan. cbn. now rewrite alter_keeps_identities.
  - unfold failAgentSpan. cbn. now rewrite alter_keeps_identities.
  - unfold attachArtifact. cbn. now rewrite alter_keeps_identities.
  - now destruct (finalize_keeps_spans now ctx) as (-> & _ & _).
  - unfold buildResponse. cbn [fst].
    now destruct (finalize_keeps_spans now ctx) as (-> & _ & _).
Qed.

Lemma step_hierarchy (op : operation) (ctx : ExecutionContext) :
  hierarchy_ok ctx -> hierarchy_ok (step op ctx).
Proof.
  unfold hierarchy_ok. intros Hok.
  destruct op as [uuid now name meta|now i|now i reason|i artifact|now|now]; cbn [step].
  - cbn. apply Forall_app. split; [exact Hok|].
    constructor; [split; reflexivity|constructor].
  - unfold completeAgentSpan. cbn. now apply alter_keeps_nesting.
  - unfold failAgentSpan. cbn. now apply alter_keeps_nesting.
  - unfold attachArtifact. cbn. now apply alter_keeps_nesting.
  - destruct (finalize_keeps_spans now ctx) as (Hs & Hid & _).
    rewrite Hs. unfold nested_under. rewrite Hid. exact Hok.
  - unfold buildResponse. cbn [fst].
    destruct (finalize_keeps_spans now ctx) as (Hs & Hid & _).
    rewrite Hs. unfold nested_under. rewrite Hid. exact Hok.
Qed.

Lemma reachable_hierarchy (ctx : ExecutionContext) :
  reachable ctx -> hierarchy_ok ctx.
Proof.
  induction 1 as [uuid now e p|op ctx _ IH].
  - constructor.
  - now apply step_hierarchy.
Qed.

(** C10: in every state an execution context can reach, each agent span of
    the repo span has the repo span's [span_id] as [parent_span_id] and
    ['llm-forge'] as [repo_name]; [startAgentSpan] appends one span, created
    [RUNNING] with no artifacts and nested under the repo span; and no
    operation removes or replaces a span: the spans present before are the
    first spans present after, in the same order. *)
Theorem span_hierarchy_invariant (ctx : ExecutionContext) :
  reachable ctx ->
  hierarchy_ok ctx /\
  (forall op, hierarchy_ok (step op ctx) /\
              span_identities ctx `prefix_of` span_identities (step op ctx)) /\
  (forall uuid now agentName metadata,
     RepoSpan.agent_spans (repoSpan (fst (startAgentSpan uuid now agentName metadata ctx)))
       = RepoSpan.agent_spans (repoSpan ctx)
           ++ [snd (startAgentSpan uuid now agentName metadata ctx)] /\
     AgentSpan.status (snd (startAgentSpan uuid now agentName metadata ctx)) = RUNNING /\
     AgentSpan.artifacts (snd (startAgentSpan uuid now agentName metadata ctx)) = [] /\
     nested_under (repoSpan ctx) (snd (startAgentSpan uuid now agentName metadata ctx))).
Proof.
  intros Hreach. pose proof (reachable_hierarchy ctx Hreach) as Hok.
  split; [exact Hok|]. split.
  - intros op. split; [now apply step_hierarchy|apply step_identities].
  - intros uuid now agentName metadata. repeat split.
Qed.

End Hierarchy.

Lemma span_hierarchy_invariant_witness :
  reachable Run.failed_run /\
  hierarchy_ok Run.failed_run /\
  (forall op, hierarchy_ok (step op Run.failed_run) /\
              span_identities Run.failed_run
                `prefix_of` span_identities (step op Run.failed_run)) /\
  (forall uuid now agentName metadata,
     RepoSpan.agent_spans
       (repoSpan (fst (startAgentSpan uuid now agentName metadata Run.failed_run)))
       = RepoSpan.agent_spans (repoSpan Run.failed_run)
           ++ [snd (startAgentSpan uuid now agentName metadata Run.failed_run)] /\
     AgentSpan.status (snd (startAgentSpan uuid now agentName metadata Run.failed_run))
       = RUNNING /\
     AgentSpan.artifacts (snd (startAgentSpan uuid now agentName metadata Run.failed_run))
       = [] /\
     nested_under (repoSpan Run.failed_run)
       (snd (startAgentSpan uuid now agentName metadata Run.failed_run))).
Proof.
  assert (Hreach : reachable Run.failed_run).
  { unfold Run.failed_run. repeat apply reachable_step. apply reachable_new. }
  split; [exact Hreach|].
  apply (span_hierarchy_invariant Run.failed_run). exact Hreach.
Defined.

(** ** Runs of the test suite *)

Section Runs.

Example failed_run_status :
  RepoSpan.status (repoSpan Run.failed_run) = FAILED /\
  RepoSpan.failure_reason (repoSpan Run.failed_run) = Some "agent-1: Broke" /\
  length (RepoSpan.agent_spans (repoSpan Run.failed_run)) = 1.
Proof. repeat split. Qed.

Example no_agent_spans_is_failed :
  let ctx := finalize "t1" (new_ExecutionContext "r" "t0" "exec-1" "parent-1") in
  RepoSpan.status (repoSpan ctx) = FAILED /\
  RepoSpan.failure_reason (repoSpan ctx) = Some "No agent spans produced".
Proof. split; reflexivity. Qed.

Example two_failures_are_joined :
  let ctx :=
    finalize "t5"
      (failAgentSpan "t4" 1 "Error 2"
         (failAgentSpan "t3" 0 "Error 1"
            (fst (startAgentSpan "a2" "t2" "agent-2" None
               (fst (startAgentSpan "a1" "t1" "agent-1" None
                  (new_ExecutionContext "r" "t0" "exec-1" "parent-1"))))))) in
  RepoSpan.failure_reason (repoSpan ctx)
    = Some "agent-1: Error 1; agent-2: Error 2" /\
  length (RepoSpan.agent_spans (repoSpan ctx)) = 2.
Proof. split; reflexivity. Qed.

Example completed_run :
  let ctx :=
    finalize "t3"
      (completeAgentSpan "t2" 0
         (fst (startAgentSpan "a1" "t1" "test-agent" None
            (new_ExecutionContext "r" "t0" "exec-1" "parent-1")))) in
  RepoSpan.status (repoSpan ctx) = COMPLETED /\
  RepoSpan.failure_reason (repoSpan ctx) = None.
Proof. split; reflexivity. Qed.

End Runs.

(** ** Execution headers *)

Section Headers.

Lemma truthy_header_None (h : gmap string HeaderValue) (name : string) :
  truthy_header (getHeader h name) = None <-> absent_or_empty (h !! name).
Proof.
  unfold getHeader, absent_or_empty.
  destruct (h !! name) as [[s|[|v rest]]|]; cbn.
  - destruct (String.eqb_spec s "") as [->|Hs]; split; auto.
    + discriminate.
    + intros [H|[H|[H|[r H]]]]; try discriminate; congruence.
  - split; auto.
  - destruct (String.eqb_spec v "") as [->|Hv]; split; eauto.
    + discriminate.
    + intros [H|[H|[H|[r H]]]]; try discriminate; congruence.
  - split; auto.
Qed.

Lemma truthy_header_Some (h : gmap string HeaderValue) (name v : string) :
  truthy_header (getHeader h name) = Some v <->
  first_value (h !! name) v /\ v <> "".
Proof.
  unfold getHeader, first_value.
  destruct (h !! name) as [[s|[|s rest]]|]; cbn.
  1,3: destruct (String.eqb_spec s "") as [->|Hs]; split;
       [ discriminate
       | intros [[[= ->]|[r [= -> _]]] Hv]; congruence
       | intros [= ->]; eauto
       | intros [[[= ->]|[r [= -> _]]] _]; reflexivity ].
  all: split; [discriminate|].
  all: intros [[H|[r H]] _]; discriminate H.
Qed.

(** An [x-execution-id] header that is present and empty counts as absent:
    the execution id is the generated UUID. *)
Example extractExecutionHeaders_empty_execution_id :
  getHeader Run.empty_execution_id "x-execution-id" = Some "" /\
  extractExecutionHeaders Run.uuid Run.empty_execution_id
  = Some {| ExecutionHeaders.executionId := Run.uuid;
            ExecutionHeaders.parentSpanId := "span-456" |}.
Proof. split; reflexivity. Qed.

(** C9: [extractExecutionHeaders] returns null exactly when the
    ['x-parent-span-id'] header, taken as its first element when it is an
    array, is absent or empty. When it is present, that is neither absent
    nor empty, the result has that header value as [parentSpanId], and as
    [executionId] the ['x-execution-id'] header, taken the same way, when
    that is present in the same sense, and the freshly generated UUID
    otherwise. *)
Theorem extractExecutionHeaders_spec (uuid : string) (headers : gmap string HeaderValue) :
  (extractExecutionHeaders uuid headers = None <->
   absent_or_empty (headers !! "x-parent-span-id")) /\
  (forall p,
     first_value (headers !! "x-parent-span-id") p /\ p <> "" ->
     exists r,
       extractExecutionHeaders uuid headers = Some r /\
       ExecutionHeaders.parentSpanId r = p /\
       (forall e, first_value (headers !! "x-execution-id") e /\ e <> "" ->
                  ExecutionHeaders.executionId r = e) /\
       (absent_or_empty (headers !! "x-execution-id") ->
        ExecutionHeaders.executionId r = uuid)).
Proof.
  split.
  - rewrite <- truthy_header_None. unfold extractExecutionHeaders.
    destruct (truthy_header (getHeader headers "x-parent-span-id")); split;
      (discriminate || reflexivity).
  - intros p Hp%truthy_header_Some. unfold extractExecutionHeaders. rewrite Hp.
    eexists. split; [reflexivity|]. split; [reflexivity|]. cbn. split.
    + intros e He%truthy_header_Some. now rewrite He.
    + intros He%truthy_header_None. now rewrite He.
Qed.

End Headers.

(** * Further properties *)

(** ** Runs of an execution context *)

Section ContextRuns.

Lemma run_cons (op : operation) (ops : list operation) (ctx : ExecutionContext) :
  run (op :: ops) ctx = run ops (step op ctx).
Proof. reflexivity. Qed.

Lemma finalize_keeps_identity (now : string) (ctx : ExecutionContext) :
  repo_identity (finalize now ctx) = repo_identity ctx.
Proof.
  unfold finalize. case_bool_decide; [reflexivity|].
  destruct (existsb is_failed _); reflexivity.
Qed.

Lemma step_keeps_identity (op : operation) (ctx : ExecutionContext) :
  repo_identity (step op ctx) = repo_identity ctx.
Proof.
  destruct op; try reflexivity; cbn [step buildResponse fst];
    apply finalize_keeps_identity.
Qed.

Lemma step_length (op : operation) (ctx : ExecutionContext) :
  length (RepoSpan.agent_spans (repoSpan (step op ctx)))
  = length (RepoSpan.agent_spans (repoSpan ctx)) + (if is_start op then 1 else 0).
Proof.
  destruct op as [uuid now name meta|now i|now i reason|i artifact|now|now];
    cbn [step is_start].
  - cbn. rewrite length_app. reflexivity.
  - cbn. rewrite length_alter. lia.
  - cbn. rewrite length_alter. lia.
  - cbn. rewrite length_alter. lia.
  - destruct (finalize_keeps_spans now ctx) as (-> & _). lia.
  - unfold buildResponse. cbn [fst].
    destruct (finalize_keeps_spans now ctx) as (-> & _). lia.
Qed.

(** X1: after any sequence of method calls, the repo span holds as many agent
    spans as it held before plus one per [startAgentSpan] of the sequence. *)
Theorem run_span_count (ops : list operation) (ctx : ExecutionContext) :
  length (RepoSpan.agent_spans (repoSpan (run ops ctx)))
  = length (RepoSpan.agent_spans (repoSpan ctx)) + length (List.filter is_start ops).
Proof.
  revert ctx. induction ops as [|op ops IH]; intros ctx.
  - cbn. lia.
  - rewrite run_cons, IH, step_length. cbn [List.filter].
    destruct (is_start op); cbn [length]; lia.
Qed.

(** X2: no sequence of method calls changes what identifies the repo span:
    the context's execution id and the repo span's [repo_name], [span_id],
    [parent_span_id], [execution_id] and [start_time]. *)
Theorem run_keeps_repo_identity (ops : list operation) (ctx : ExecutionContext) :
  repo_identity (run ops ctx) = repo_identity ctx.
Proof.
  revert ctx. induction ops as [|op ops IH]; intros ctx; [reflexivity|].
  now rewrite run_cons, IH, step_keeps_identity.
Qed.

Lemma alter_lifecycle (f : AgentSpan.t -> AgentSpan.t) (i : nat)
    (spans : list AgentSpan.t) :
  (forall s, lifecycle_ok s -> lifecycle_ok (f s)) ->
  Forall lifecycle_ok spans -> Forall lifecycle_ok (alter f i spans).
Proof. intros Hf Hall. apply Forall_alter; auto. Qed.

Lemma step_lifecycle (op : operation) (ctx : ExecutionContext) :
  Forall lifecycle_ok (RepoSpan.agent_spans (repoSpan ctx)) ->
  Forall lifecycle_ok (RepoSpan.agent_spans (repoSpan (step op ctx))).
Proof.
  intros Hok.
  destruct op as [uuid now name meta|now i|now i reason|i artifact|now|now];
    cbn [step].
  - cbn. apply Forall_app. split; [exact Hok|].
    constructor; [|constructor]. unfold lifecycle_ok. cbn. repeat split; auto.
    discriminate.
  - cbn. apply alter_lifecycle; [|exact Hok].
    intros s _. unfold lifecycle_ok. cbn. repeat split; discriminate.
  - cbn. apply alter_lifecycle; [|exact Hok].
    intros s _. unfold lifecycle_ok. cbn. repeat split; try discriminate. eauto.
  - cbn. apply alter_lifecycle; [|exact Hok]. intros s Hs. exact Hs.
  - now destruct (finalize_keeps_spans now ctx) as (-> & _).
  - unfold buildResponse. cbn [fst].
    now destruct (finalize_keeps_spans now ctx) as (-> & _).
Qed.

(** X3: in every state a context can reach, each agent span is [RUNNING]
    exactly when it has no [end_time], a [RUNNING] span has no
    [failure_reason], and a [FAILED] span has one. *)
Theorem reachable_lifecycle (ctx : ExecutionContext) :
  reachable ctx ->
  Forall lifecycle_ok (RepoSpan.agent_spans (repoSpan ctx)).
Proof.
  induction 1 as [uuid now e p|op ctx _ IH].
  - constructor.
  - now apply step_lifecycle.
Qed.

(** X4: an operation other than [startAgentSpan] leaves the number of spans
    as it is, and leaves every span as it is except the one it is given. *)
Theorem step_frame (op : operation) (ctx : ExecutionContext) (j : nat) :
  is_start op = false ->
  target op <> Some j ->
  length (RepoSpan.agent_spans (repoSpan (step op ctx)))
    = length (RepoSpan.agent_spans (repoSpan ctx)) /\
  RepoSpan.agent_spans (repoSpan (step op ctx)) !! j
    = RepoSpan.agent_spans (repoSpan ctx) !! j.
Proof.
  intros Hstart Hj. split.
  - rewrite step_length, Hstart. lia.
  - destruct op as [uuid now name meta|now i|now i reason|i artifact|now|now];
      cbn [step target] in *; try discriminate Hstart.
    + cbn. apply list_lookup_alter_ne. congruence.
    + cbn. apply list_lookup_alter_ne. congruence.
    + cbn. apply list_lookup_alter_ne. congruence.
    + now destruct (finalize_keeps_spans now ctx) as (-> & _).
    + unfold buildResponse. cbn [fst].
      now destruct (finalize_keeps_spans now ctx) as (-> & _).
Qed.

(** X5: the last of [completeAgentSpan] and [failAgentSpan] decides a span's
    status, and completing a failed span keeps its [failure_reason]. *)
Theorem complete_after_fail (t1 t2 reason : string) (i : nat)
    (ctx : ExecutionContext) (s : AgentSpan.t) :
  RepoSpan.agent_spans (repoSpan ctx) !! i = Some s ->
  exists s',
    RepoSpan.agent_spans
      (repoSpan (completeAgentSpan t2 i (failAgentSpan t1 i reason ctx))) !! i = Some s' /\
    AgentSpan.status s' = COMPLETED /\
    AgentSpan.end_time s' = Some t2 /\
    AgentSpan.failure_reason s' = Some reason /\
    AgentSpan.artifacts s' = AgentSpan.artifacts s.
Proof.
  intros Hs. unfold completeAgentSpan, failAgentSpan. cbn.
  rewrite !list_lookup_alter_eq, Hs. cbn. eexists. split; [reflexivity|].
  repeat split.
Qed.

Lemma step_lookup (op : operation) (ctx : ExecutionContext) (i : nat) (s : AgentSpan.t) :
  RepoSpan.agent_spans (repoSpan ctx) !! i = Some s ->
  exists s',
    RepoSpan.agent_spans (repoSpan (step op ctx)) !! i = Some s' /\
    AgentSpan.artifacts s `prefix_of` AgentSpan.artifacts s'.
Proof.
  intros Hs.
  destruct op as [uuid now name meta|now k|now k reason|k artifact|now|now];
    cbn [step].
  - cbn. exists s. split; [|reflexivity]. now apply lookup_app_l_Some.
  - cbn. rewrite list_lookup_alter. case_decide; subst; rewrite Hs; cbn; eauto.
  - cbn. rewrite list_lookup_alter. case_decide; subst; rewrite Hs; cbn; eauto.
  - cbn. rewrite list_lookup_alter. case_decide; subst; rewrite Hs; cbn.
    + eexists. split; [reflexivity|]. cbn. now apply prefix_app_r.
    + eauto.
  - destruct (finalize_keeps_spans now ctx) as (-> & _). eauto.
  - unfold buildResponse. cbn [fst].
    destruct (finalize_keeps_spans now ctx) as (-> & _). eauto.
Qed.

(** X6: artifacts are only ever added at the end: whatever the sequence of
    method calls, a span present before is still at its position after, and
    the artifacts it had are the first of those it has. *)
Theorem run_artifacts_append_only (ops : list operation) (ctx : ExecutionContext)
    (i : nat) (s : AgentSpan.t) :
  RepoSpan.agent_spans (repoSpan ctx) !! i = Some s ->
  exists s',
    RepoSpan.agent_spans (repoSpan (run ops ctx)) !! i = Some s' /\
    AgentSpan.artifacts s `prefix_of` AgentSpan.artifacts s'.
Proof.
  revert ctx s. induction ops as [|op ops IH]; intros ctx s Hs.
  - exists s. split; [exact Hs|reflexivity].
  - destruct (step_lookup op ctx i s Hs) as (s1 & Hs1 & Hp1).
    destruct (IH (step op ctx) s1 Hs1) as (s2 & Hs2 & Hp2).
    exists s2. split; [exact Hs2|]. now transitivity (AgentSpan.artifacts s1).
Qed.

End ContextRuns.

(** ** Finalizing, again and after failures *)

Section FinalizeAgain.

(** X7: finalizing twice is finalizing once at the later time: status,
    failure reason and agent spans of the second result are those of a single
    [finalize]. *)
Theorem finalize_idempotent (t1 t2 : string) (ctx : ExecutionContext) :
  finalize t2 (finalize t1 ctx) = finalize t2 ctx.
Proof.
  destruct ctx as [e [rn sid pid eid st en status fr spans]].
  destruct spans as [|s spans]; [reflexivity|].
  unfold finalize. simpl.
  destruct (is_failed s || existsb is_failed spans) eqn:Hany; simpl;
    rewrite ?Hany; reflexivity.
Qed.

Lemma failed_line_listed (s : AgentSpan.t) (spans : list AgentSpan.t) :
  s ∈ spans -> is_failed s = true ->
  failure_line s ∈ map failure_line (List.filter is_failed spans).
Proof.
  intros Hin Hf. apply list_elem_of_In, in_map, filter_In.
  split; [now apply list_elem_of_In|exact Hf].
Qed.

(** X8: failing a span of the context fails the execution: whatever the
    other spans, [finalize] then gives [FAILED], with a reason that joins
    lines among which is the span's name, a colon and the reason given. *)
Theorem failed_span_fails_execution (t1 t2 reason : string) (i : nat)
    (ctx : ExecutionContext) (s : AgentSpan.t) :
  RepoSpan.agent_spans (repoSpan ctx) !! i = Some s ->
  RepoSpan.status (repoSpan (finalize t2 (failAgentSpan t1 i reason ctx))) = FAILED /\
  exists lines,
    RepoSpan.failure_reason (repoSpan (finalize t2 (failAgentSpan t1 i reason ctx)))
      = Some (String.concat "; " lines) /\
    (AgentSpan.agent_name s +:+ ": " +:+ reason) ∈ lines.
Proof.
  intros Hs.
  set (spans' := alter (fail_span t1 reason) i (RepoSpan.agent_spans (repoSpan ctx))).
  assert (Hin : fail_span t1 reason s ∈ spans').
  { apply list_elem_of_lookup. exists i. unfold spans'.
    now rewrite list_lookup_alter_eq, Hs. }
  assert (Hany : existsb is_failed spans' = true).
  { apply existsb_exists. exists (fail_span t1 reason s). split.
    - now apply list_elem_of_In.
    - reflexivity. }
  assert (Hlen : length spans' <> 0).
  { intros Hlen. apply length_zero_iff_nil in Hlen. rewrite Hlen in Hin.
    now apply not_elem_of_nil in Hin. }
  unfold finalize, failAgentSpan. cbn. fold spans'.
  rewrite bool_decide_eq_false_2 by exact Hlen. rewrite Hany. cbn.
  split; [reflexivity|]. eexists. split; [reflexivity|].
  change (AgentSpan.agent_name s +:+ ": " +:+ reason)
    with (failure_line (fail_span t1 reason s)).
  now apply failed_line_listed.
Qed.

Lemma step_keeps_repo_state (op : operation) (ctx : ExecutionContext) :
  is_finalize op = false ->
  RepoSpan.status (repoSpan (step op ctx)) = RepoSpan.status (repoSpan ctx) /\
  RepoSpan.end_time (repoSpan (step op ctx)) = RepoSpan.end_time (repoSpan ctx) /\
  RepoSpan.failure_reason (repoSpan (step op ctx))
    = RepoSpan.failure_reason (repoSpan ctx).
Proof. destruct op; intros H; try discriminate H; repeat split. Qed.

Lemma run_keeps_repo_state (ops : list operation) (ctx : ExecutionContext) :
  forallb (fun op => negb (is_finalize op)) ops = true ->
  RepoSpan.status (repoSpan (run ops ctx)) = RepoSpan.status (repoSpan ctx) /\
  RepoSpan.end_time (repoSpan (run ops ctx)) = RepoSpan.end_time (repoSpan ctx) /\
  RepoSpan.failure_reason (repoSpan (run ops ctx))
    = RepoSpan.failure_reason (repoSpan ctx).
Proof.
  revert ctx. induction ops as [|op ops IH]; intros ctx; cbn [forallb].
  - intros _. repeat split.
  - intros [Hop Hops]%andb_true_iff. rewrite run_cons.
    destruct (IH (step op ctx) Hops) as (-> & -> & ->).
    apply step_keeps_repo_state. now destruct (is_finalize op).
Qed.

Lemma finalize_never_running (now : string) (ctx : ExecutionContext) :
  RepoSpan.status (repoSpan (finalize now ctx)) <> RUNNING.
Proof.
  unfold finalize. case_bool_decide; [discriminate|].
  destruct (existsb is_failed _); discriminate.
Qed.

(** X9: until it is finalized, a context created by the constructor is
    [RUNNING] with neither [end_time] nor [failure_reason]; its first
    [finalize] leaves it [COMPLETED] or [FAILED], and [COMPLETED] exactly
    when there is no [failure_reason]. *)
Theorem first_finalize (uuid t0 executionId parentSpanId now : string)
    (ops : list operation) :
  forallb (fun op => negb (is_finalize op)) ops = true ->
  let ctx := run ops (new_ExecutionContext uuid t0 executionId parentSpanId) in
  RepoSpan.status (repoSpan ctx) = RUNNING /\
  RepoSpan.end_time (repoSpan ctx) = None /\
  RepoSpan.failure_reason (repoSpan ctx) = None /\
  RepoSpan.status (repoSpan (finalize now ctx)) <> RUNNING /\
  (RepoSpan.status (repoSpan (finalize now ctx)) = COMPLETED <->
   RepoSpan.failure_reason (repoSpan (finalize now ctx)) = None).
Proof.
  intros Hops ctx.
  destruct (run_keeps_repo_state ops
              (new_ExecutionContext uuid t0 executionId parentSpanId) Hops)
    as (Hst & Hen & Hfr).
  fold ctx in Hst, Hen, Hfr. cbn in Hst, Hen, Hfr.
  split; [exact Hst|]. split; [exact Hen|]. split; [exact Hfr|].
  split; [apply finalize_never_running|].
  unfold finalize. case_bool_decide; cbn.
  - split; discriminate.
  - destruct (existsb is_failed _); cbn; [split; discriminate|].
    rewrite Hfr. split; reflexivity.
Qed.

(** X10: [buildResponse] hands back the result it was given, around the
    finalized repo span: never [RUNNING], stamped with the time of the call,
    holding the context's agent spans, each of them a child of the repo span
    when the context was reached through the methods. *)
Theorem buildResponse_envelope {T : Type} (now : string) (payload : T)
    (ctx : ExecutionContext) :
  reachable ctx ->
  result (snd (buildResponse now payload ctx)) = payload /\
  execution (snd (buildResponse now payload ctx))
    = repoSpan (fst (buildResponse now payload ctx)) /\
  RepoSpan.status (execution (snd (buildResponse now payload ctx))) <> RUNNING /\
  RepoSpan.end_time (execution (snd (buildResponse now payload ctx))) = Some now /\
  RepoSpan.agent_spans (execution (snd (buildResponse now payload ctx)))
    = RepoSpan.agent_spans (repoSpan ctx) /\
  Forall (nested_under (execution (snd (buildResponse now payload ctx))))
    (RepoSpan.agent_spans (execution (snd (buildResponse now payload ctx)))).
Proof.
  intros Hreach. unfold buildResponse. cbn [fst snd result execution].
  destruct (finalize_keeps_spans now ctx) as (Hs & Hid & Hend).
  split; [reflexivity|]. split; [reflexivity|].
  split; [apply finalize_never_running|]. split; [exact Hend|].
  split; [exact Hs|].
  rewrite Hs. unfold nested_under. rewrite Hid.
  exact (reachable_hierarchy ctx Hreach).
Qed.

End FinalizeAgain.

(** ** Agent handlers and their execution spans *)

Section AgentHandlers.
Import Handlers.
Variable sha256_hex : string -> string.
Variable byteLength : string -> N.

Lemma extract_None (uuid : string) (headers : gmap string HeaderValue) :
  extractExecutionHeaders uuid headers = None <->
  absent_or_empty (headers !! "x-parent-span-id").
Proof.
  rewrite <- truthy_header_None. unfold extractExecutionHeaders.
  destruct (truthy_header (getHeader headers "x-parent-span-id")); split;
    (discriminate || reflexivity).
Qed.

Lemma extract_Some (uuid p : string) (headers : gmap string HeaderValue) :
  first_value (headers !! "x-parent-span-id") p -> p <> "" ->
  exists eh, extractExecutionHeaders uuid headers = Some eh /\
             ExecutionHeaders.parentSpanId eh = p.
Proof.
  intros Hp Hne. unfold extractExecutionHeaders.
  rewrite (proj2 (truthy_header_Some headers "x-parent-span-id" p) (conj Hp Hne)).
  eexists. split; reflexivity.
Qed.

Lemma first_value_not_absent (h : option HeaderValue) (p : string) :
  first_value h p -> p <> "" -> ~ absent_or_empty h.
Proof.
  intros [->|[rest ->]] Hp [H|[H|[H|[r H]]]]; try discriminate; congruence.
Qed.

Lemma openExecution_opened (o : Oracle) (agentId : string) (metadata : Js.value)
    (headers : gmap string HeaderValue) (eh : ExecutionHeaders.t) :
  extractExecutionHeaders (uuid_execution o) headers = Some eh ->
  openExecution o agentId metadata headers
  = Opened (fst (opened_context o agentId metadata eh))
           (snd (opened_context o agentId metadata eh)).
Proof.
  intros He. unfold openExecution. rewrite He.
  rewrite bool_decide_eq_true_2 by eauto. now rewrite andb_false_r.
Qed.


End AgentHandlers.

Section AgentReplies.
Import Handlers.
Variable sha256_hex : string -> string.
Variable byteLength : string -> N.

(** X12: the reply of the CLI, translation and compatibility handlers.
    The status is 200, 400 or 500, and 200 only for a result that reports
    success and was delivered without an exception. A reply that carries an
    execution envelope holds exactly one agent span, the agent's, no longer
    [RUNNING] and a child of the repo span; the repo span has the span's
    status, and it is [COMPLETED] exactly when the reply's status is 200. *)
Theorem handleAgent_reply (ep : Endpoint) (o : Oracle)
    (headers : gmap string HeaderValue) (outcome : Outcome) :
  (statusCode (handleAgent sha256_hex byteLength ep o headers outcome) = 200%N \/
   statusCode (handleAgent sha256_hex byteLength ep o headers outcome) = 400%N \/
   statusCode (handleAgent sha256_hex byteLength ep o headers outcome) = 500%N) /\
  (statusCode (handleAgent sha256_hex byteLength ep o headers outcome) = 200%N ->
   exists produced resultJson,
     outcome = Produced produced resultJson None /\ success produced = true) /\
  (forall payload exec,
     body (handleAgent sha256_hex byteLength ep o headers outcome) = Envelope payload exec ->
     exists span,
       RepoSpan.agent_spans exec = [span] /\
       AgentSpan.agent_name span = AGENT_ID ep /\
       AgentSpan.status span <> RUNNING /\
       AgentSpan.parent_span_id span = RepoSpan.span_id exec /\
       RepoSpan.status exec = AgentSpan.status span /\
       (RepoSpan.status exec = COMPLETED <->
        statusCode (handleAgent sha256_hex byteLength ep o headers outcome) = 200%N)).
Proof.
  unfold handleAgent, openExecution.
  destruct (raw_truthy (headers !! "x-execution-id")
            && negb (bool_decide (is_Some (extractExecutionHeaders (uuid_execution o) headers)))).
  { cbn. split; [auto|]. split; [discriminate|]. discriminate. }
  destruct (extractExecutionHeaders (uuid_execution o) headers) as [eh|].
  - destruct outcome as [message|produced resultJson [[[] message]|]].
    2-4: destruct (success produced) eqn:Hsuccess.
    all: cbn; rewrite ?Hsuccess; cbn.
    all: (split; [auto|]; split;
          [ first [discriminate | intros _; eexists _, _; split; [reflexivity|exact Hsuccess]]
          | intros payload exec [= _ <-]; cbn; eexists; split; [reflexivity|];
            repeat split; try discriminate; auto ]).
  - destruct outcome as [message|produced resultJson [[[] message]|]].
    4: destruct (success produced) eqn:Hsuccess.
    all: cbn; (split; [auto|]; split;
               [ first [discriminate | intros _; eexists _, _; split; [reflexivity|exact Hsuccess]]
               | discriminate ]).
Qed.

Lemma openExecution_unattended (o : Oracle) (agentId : string) (metadata : Js.value)
    (headers : gmap string HeaderValue) :
  absent_or_empty (headers !! "x-parent-span-id") ->
  raw_truthy (headers !! "x-execution-id") = false ->
  openExecution o agentId metadata headers = NoContext.
Proof.
  intros Habs Hraw. apply extract_None with (uuid := uuid_execution o) in Habs.
  unfold openExecution. now rewrite Habs, Hraw.
Qed.

(** X13: an exception in a handler. Without a context the reply is the plain
    error [INTERNAL_ERROR] with status 500. With a context the reply has
    status 500 and an envelope whose repo span is [FAILED] with the reason
    made of the agent's name and the exception's message; the agent's span is
    [FAILED] with that message, even when the agent had succeeded and its
    span had been completed, and it keeps the artifact attached before the
    exception, if there was one. *)
Theorem handleAgent_exception (ep : Endpoint) (o : Oracle)
    (headers : gmap string HeaderValue) (outcome : Outcome) (message : string) :
  thrown outcome = Some message ->
  (absent_or_empty (headers !! "x-parent-span-id") /\
   raw_truthy (headers !! "x-execution-id") = false ->
   handleAgent sha256_hex byteLength ep o headers outcome
   = {| statusCode := 500; trace := None;
        body := ErrorBody "INTERNAL_ERROR" (failure_message ep) |}) /\
  (forall p,
     first_value (headers !! "x-parent-span-id") p /\ p <> "" ->
     exists exec span,
       handleAgent sha256_hex byteLength ep o headers outcome
       = {| statusCode := 500; trace := None;
            body := Envelope (FailurePayload "INTERNAL_ERROR" (failure_message ep)) exec |} /\
       RepoSpan.status exec = FAILED /\
       RepoSpan.failure_reason exec = Some (AGENT_ID ep +:+ ": " +:+ message) /\
       RepoSpan.parent_span_id exec = p /\
       RepoSpan.agent_spans exec = [span] /\
       AgentSpan.status span = FAILED /\
       AgentSpan.failure_reason span = Some message /\
       AgentSpan.artifacts span
       = match outcome with
         | ThrownEarly _ => []
         | Produced _ resultJson _ =>
             [createArtifactRef sha256_hex byteLength (uuid_artifact o) (at_artifact o)
                (artifact_label ep) resultJson None]
         end).
Proof.
  intros Hthrown. split.
  - intros [Habs Hraw]. unfold handleAgent.
    rewrite (openExecution_unattended o _ _ headers Habs Hraw).
    destruct outcome as [m|produced resultJson [[pt m]|]];
      [reflexivity|reflexivity|discriminate Hthrown].
  - intros p [Hp Hne].
    destruct (extract_Some (uuid_execution o) p headers Hp Hne) as (eh & He & Hpar).
    unfold handleAgent.
    rewrite (openExecution_opened o _ _ headers eh He).
    destruct outcome as [m|produced resultJson [[[] m]|]];
      try discriminate Hthrown; injection Hthrown as ->.
    2-3: destruct (success produced).
    all: cbn; eexists _, _; split; [reflexivity|]; cbn; repeat split; exact Hpar.
Qed.

(** [handleSDKGenerator] *)
Variable JSON_parse : string -> option Js.value.
Variable parse_error : string -> string.

(** X14: the SDK handler on a response of the agent, nothing else failing.
    The status of the agent is written by [res.writeHead], which takes the
    codes from 100 to 999. Without a context such a status and the body are
    passed on as they are; any other status is answered by the plain error
    reply with status 500. With a context and a body that parses, a status
    from 100 to 999 is passed on around an envelope whose repo span is
    [COMPLETED] exactly for a status from 200 to 399, and otherwise [FAILED]
    with the reason [HTTP] and the status; any other status is answered by
    the error envelope with status 500, the agent's span [FAILED] with the
    message of [writeHead]. With a context and a body that [JSON.parse]
    rejects, the reply has status 500 whatever the agent's status, and the
    agent's span, settled before, is [FAILED] with the parser's message. *)
Theorem handleSDKGenerator_reply (SDK_AGENT_ID SDK_AGENT_VERSION : string) (o : Oracle)
    (headers : gmap string HeaderValue) (code : N) (responseBody : string) :
  (absent_or_empty (headers !! "x-parent-span-id") /\
   raw_truthy (headers !! "x-execution-id") = false ->
   ((100 <= code <= 999)%N ->
    handleSDKGenerator sha256_hex byteLength JSON_parse parse_error
      SDK_AGENT_ID SDK_AGENT_VERSION o headers (SdkResponded code responseBody None)
    = {| statusCode := code; trace := None; body := Serialized responseBody |}) /\
   (~ (100 <= code <= 999)%N ->
    handleSDKGenerator sha256_hex byteLength JSON_parse parse_error
      SDK_AGENT_ID SDK_AGENT_VERSION o headers (SdkResponded code responseBody None)
    = {| statusCode := 500; trace := None;
         body := ErrorBody "INTERNAL_ERROR" "SDK generation failed" |})) /\
  (forall p,
     first_value (headers !! "x-parent-span-id") p /\ p <> "" ->
     (forall parsed,
        JSON_parse responseBody = Some parsed ->
        ((100 <= code <= 999)%N ->
         exists exec,
           body (handleSDKGenerator sha256_hex byteLength JSON_parse parse_error
                   SDK_AGENT_ID SDK_AGENT_VERSION o headers
                   (SdkResponded code responseBody None))
           = Envelope (SdkPayload parsed) exec /\
           statusCode (handleSDKGenerator sha256_hex byteLength JSON_parse parse_error
                         SDK_AGENT_ID SDK_AGENT_VERSION o headers
                         (SdkResponded code responseBody None))
           = code /\
           trace (handleSDKGenerator sha256_hex byteLength JSON_parse parse_error
                    SDK_AGENT_ID SDK_AGENT_VERSION o headers
                    (SdkResponded code responseBody None))
           = Some (RepoSpan.execution_id exec, RepoSpan.span_id exec) /\
           RepoSpan.parent_span_id exec = p /\
           length (RepoSpan.agent_spans exec) = 1 /\
           (RepoSpan.status exec = COMPLETED <-> (200 <= code < 400)%N) /\
           (RepoSpan.status exec <> COMPLETED ->
            RepoSpan.status exec = FAILED /\
            RepoSpan.failure_reason exec
            = Some (SDK_AGENT_ID +:+ ": " +:+ "HTTP " +:+ pretty code))) /\
        (~ (100 <= code <= 999)%N ->
         exists exec span,
           handleSDKGenerator sha256_hex byteLength JSON_parse parse_error
             SDK_AGENT_ID SDK_AGENT_VERSION o headers
             (SdkResponded code responseBody None)
           = {| statusCode := 500; trace := None;
                body := Envelope (FailurePayload "INTERNAL_ERROR" "SDK generation failed")
                          exec |} /\
           RepoSpan.parent_span_id exec = p /\
           RepoSpan.status exec = FAILED /\
           RepoSpan.failure_reason exec
           = Some (SDK_AGENT_ID +:+ ": " +:+ "Invalid status code: " +:+ pretty code) /\
           RepoSpan.agent_spans exec = [span] /\
           AgentSpan.status span = FAILED /\
           AgentSpan.failure_reason span
           = Some ("Invalid status code: " +:+ pretty code) /\
           length (AgentSpan.artifacts span) = 1)) /\
     (JSON_parse responseBody = None ->
      exists exec span,
        handleSDKGenerator sha256_hex byteLength JSON_parse parse_error
          SDK_AGENT_ID SDK_AGENT_VERSION o headers (SdkResponded code responseBody None)
        = {| statusCode := 500; trace := None;
             body := Envelope (FailurePayload "INTERNAL_ERROR" "SDK generation failed") exec |} /\
        RepoSpan.status exec = FAILED /\
        RepoSpan.agent_spans exec = [span] /\
        AgentSpan.status span = FAILED /\
        AgentSpan.failure_reason span = Some (parse_error responseBody) /\
        length (AgentSpan.artifacts span) = 1)).
Proof.
  assert (Hvalid : (100 <= code <= 999)%N -> valid_status code = true).
  { intros [H1%N.leb_le H2%N.leb_le]. unfold valid_status. now rewrite H1, H2. }
  assert (Hinvalid : ~ (100 <= code <= 999)%N ->
                     valid_status code = false /\
                     (200 <=? code)%N && (code <? 400)%N = false).
  { intros Hout. unfold valid_status. split.
    - destruct ((100 <=? code)%N && (code <=? 999)%N) eqn:Hc; [|reflexivity].
      apply andb_true_iff in Hc as [H1%N.leb_le H2%N.leb_le]. now destruct Hout.
    - destruct ((200 <=? code)%N && (code <? 400)%N) eqn:Hc; [|reflexivity].
      apply andb_true_iff in Hc as [H1%N.leb_le H2%N.ltb_lt]. destruct Hout. lia. }
  split.
  - intros [Habs Hraw]. unfold handleSDKGenerator.
    rewrite (openExecution_unattended o _ _ headers Habs Hraw). split.
    + intros Hin. now rewrite (Hvalid Hin).
    + intros Hout. now rewrite (proj1 (Hinvalid Hout)).
  - intros p [Hp Hne].
    destruct (extract_Some (uuid_execution o) p headers Hp Hne) as (eh & He & Hpar).
    unfold handleSDKGenerator.
    rewrite (openExecution_opened o _ _ headers eh He).
    split.
    + intros parsed ->. split.
      * intros Hin. rewrite (Hvalid Hin).
        destruct ((200 <=? code)%N && (code <? 400)%N) eqn:Hcode.
        -- apply andb_true_iff in Hcode as [H1%N.leb_le H2%N.ltb_lt].
           cbn. eexists. split; [reflexivity|]. cbn.
           split; [reflexivity|]. split; [reflexivity|]. split; [exact Hpar|].
           split; [reflexivity|]. split.
           ++ split; [intros _; split; assumption|reflexivity].
           ++ intros Hn. now destruct Hn.
        -- assert (Hout : ~ (200 <= code < 400)%N).
           { intros [H1%N.leb_le H2%N.ltb_lt]. rewrite H1, H2 in Hcode. discriminate. }
           cbn. eexists. split; [reflexivity|]. cbn.
           split; [reflexivity|]. split; [reflexivity|]. split; [exact Hpar|].
           split; [reflexivity|]. split.
           ++ split; [discriminate|]. intros Hin'. now destruct (Hout Hin').
           ++ intros _. split; reflexivity.
      * intros Hout. destruct (Hinvalid Hout) as [-> ->].
        cbn. eexists _, _. split; [reflexivity|]. cbn.
        split; [exact Hpar|]. repeat split.
    + intros ->.
      destruct ((200 <=? code)%N && (code <? 400)%N);
        cbn; eexists _, _; split; [reflexivity| |reflexivity|]; cbn; repeat split.
Qed.

End AgentReplies.

(** ** Routing *)

Section Routing.
Import Service.

Lemma split_free (sep : Ascii.ascii) (s : string) :
  free_of sep s = true -> split sep s = [s].
Proof.
  induction s as [|c s IH]; cbn [free_of split]; [reflexivity|].
  intros [Hc Hs]%andb_true_iff. apply negb_true_iff in Hc.
  now rewrite Hc, (IH Hs).
Qed.

Lemma split_app (sep : Ascii.ascii) (a b : string) :
  free_of sep a = true ->
  split sep (a +:+ String sep b) = a :: split sep b.
Proof.
  induction a as [|c a IH]; simpl.
  - intros _. now rewrite Ascii.eqb_refl.
  - intros [Hc Ha]%andb_true_iff. apply negb_true_iff in Hc.
    now rewrite Hc, (IH Ha).
Qed.

Lemma free_of_app (sep : Ascii.ascii) (a b : string) :
  free_of sep (a +:+ b) = free_of sep a && free_of sep b.
Proof.
  induction a as [|c a IH]; simpl; [reflexivity|].
  now rewrite IH, andb_assoc.
Qed.

Lemma is_method_true (name : string) (method : option string) :
  is_method name method = true <-> method = Some name.
Proof.
  destruct method as [m|]; cbn; [|split; discriminate].
  rewrite String.eqb_eq. split; [now intros ->|now intros [= ->]].
Qed.

(** X15: the query string plays no part in routing: a URL with a query goes
    where the URL without it goes. *)
Theorem route_ignores_query (method : option string) (p q : string) :
  free_of "?" p = true ->
  route method (Some (p +:+ String "?" q)) = route method (Some p).
Proof.
  intros Hp. unfold route, path_of.
  now rewrite (split_app "?" p q Hp), (split_free "?" p Hp).
Qed.

(** X16: what each method can reach. A request is answered as a preflight
    exactly when its method is [OPTIONS]; an agent is invoked only by a
    [POST]; the health check, the agent list and an agent's status are served
    only to a [GET]. *)
Theorem route_methods (method url : option string) :
  (route method url = Preflight <-> method = Some "OPTIONS") /\
  (forall agent, route method url = Invoke agent -> method = Some "POST") /\
  (route method url = Health -> method = Some "GET") /\
  (route method url = AgentList -> method = Some "GET") /\
  (forall agentId, route method url = AgentStatus agentId -> method = Some "GET").
Proof.
  unfold route.
  destruct (is_method "OPTIONS" method) eqn:Hopt.
  { apply is_method_true in Hopt. repeat split; try discriminate; auto. }
  assert (Hnopt : method <> Some "OPTIONS").
  { intros H%is_method_true. congruence. }
  destruct (is_method "GET" method) eqn:Hget;
    destruct (is_method "POST" method) eqn:Hpost;
    try apply is_method_true in Hget; try apply is_method_true in Hpost;
    rewrite ?andb_true_r, ?andb_false_r;
    repeat match goal with
           | |- context [if ?b then _ else _] => destruct b
           | |- context [match agent_of ?x with _ => _ end] => destruct (agent_of x)
           end;
    repeat split; intros; try discriminate; try congruence; auto.
Qed.

(** X17: an invocation looks at the fifth segment of the path only. A [POST]
    to an agent's path invokes the agent, and so does a [POST] to any longer
    path below it, [.../status] included. *)
Theorem route_invocation (agent : Agent) (rest : string) :
  free_of "?" rest = true ->
  route (Some "POST") (Some ("/api/v1/agents/" +:+ agent_id agent)) = Invoke agent /\
  route (Some "POST") (Some ("/api/v1/agents/" +:+ agent_id agent +:+ String "/" rest))
  = Invoke agent.
Proof.
  intros Hrest. split; [destruct agent; reflexivity|].
  unfold route, path_of.
  rewrite split_free by (rewrite !free_of_app; destruct agent; cbn; exact Hrest).
  destruct agent; cbn;
    destruct (split "/" rest) as [|piece pieces]; cbn;
    rewrite ?andb_false_r; reflexivity.
Qed.

(** X18: a [GET] of [/api/v1/agents/<id>/status] is sent to the status
    handler with that id, whether or not the id names an agent. *)
Theorem route_status (agentId : string) :
  free_of "/" agentId = true ->
  free_of "?" agentId = true ->
  route (Some "GET") (Some ("/api/v1/agents/" +:+ agentId +:+ "/status"))
  = AgentStatus (Some agentId).
Proof.
  intros Hslash Hquery. unfold route, path_of.
  rewrite split_free by (rewrite !free_of_app, Hquery; reflexivity).
  set (path := "/api/v1/agents/" +:+ agentId +:+ "/status").
  assert (Hparts : split "/" path = [""; "api"; "v1"; "agents"; agentId; "status"]).
  { change path
      with ("" +:+ String "/" ("api" +:+ String "/" ("v1" +:+ String "/"
              ("agents" +:+ String "/" (agentId +:+ String "/" "status"))))).
    rewrite (split_app "/" "") by reflexivity.
    rewrite (split_app "/" "api") by reflexivity.
    rewrite (split_app "/" "v1") by reflexivity.
    rewrite (split_app "/" "agents") by reflexivity.
    now rewrite (split_app "/" agentId) by exact Hslash. }
  assert (Hhead : default "" (head [path]) = path) by reflexivity.
  assert (Hfirst : (path =? "") = false) by reflexivity.
  assert (Hhealth : (path =? "/health") = false) by reflexivity.
  assert (Hlist : (path =? "/api/v1/agents") = false) by (destruct agentId; reflexivity).
  assert (Hprefix : String.prefix "/api/v1/agents/" path = true)
    by (destruct agentId; reflexivity).
  rewrite Hhead, Hfirst, Hhealth, Hlist, Hprefix, Hparts.
  reflexivity.
Qed.

End Routing.

(** ** Logging *)

Section Logging.
Import Service.

Lemma assoc_app (k : string) (a b : list (string * Js.value)) :
  Js.assoc k (a ++ b) = match Js.assoc k a with
                         | Some v => Some v
                         | None => Js.assoc k b
                         end.
Proof.
  induction a as [|[k0 v0] a IH]; cbn [app Js.assoc]; [reflexivity|].
  destruct (String.eqb k k0); [reflexivity|exact IH].
Qed.

Lemma assoc_replace_member (k k' : string) (v : Js.value) (ms : list (string * Js.value)) :
  is_Some (Js.assoc k' ms) ->
  Js.assoc k (replace_member k' v ms)
  = if String.eqb k k' then Some v else Js.assoc k ms.
Proof.
  induction ms as [|[k0 v0] ms IH]; cbn [replace_member Js.assoc].
  - now intros [? [=]].
  - intros Hk'. destruct (String.eqb_spec k' k0) as [->|Hne]; cbn [Js.assoc].
    + destruct (String.eqb k k0); reflexivity.
    + destruct (String.eqb_spec k k0) as [->|Hne0].
      * destruct (String.eqb_spec k0 k') as [->|_]; [congruence|reflexivity].
      * apply IH. exact Hk'.
Qed.

Lemma assoc_insert_index (n : N) (k k' : string) (v : Js.value)
    (ms : list (string * Js.value)) :
  Js.assoc k' ms = None ->
  Js.assoc k (insert_index n k' v ms)
  = if String.eqb k k' then Some v else Js.assoc k ms.
Proof.
  induction ms as [|[k0 v0] ms IH]; cbn [insert_index Js.assoc].
  - intros _. destruct (String.eqb k k'); reflexivity.
  - destruct (String.eqb_spec k' k0) as [->|Hne]; [discriminate|]. intros Hk'.
    assert (Hhead : Js.assoc k ((k', v) :: (k0, v0) :: ms)
                    = if String.eqb k k' then Some v else Js.assoc k ((k0, v0) :: ms))
      by reflexivity.
    destruct (array_index k0) as [n'|]; [|exact Hhead].
    destruct (n' <? n)%N; [|exact Hhead].
    cbn [Js.assoc]. destruct (String.eqb_spec k k0) as [->|Hne0].
    + destruct (String.eqb_spec k0 k') as [->|_]; [congruence|reflexivity].
    + apply IH. exact Hk'.
Qed.

Lemma assoc_set_member (k k' : string) (v : Js.value) (ms : list (string * Js.value)) :
  Js.assoc k (set_member k' v ms)
  = if String.eqb k k' then Some v else Js.assoc k ms.
Proof.
  unfold set_member. destruct (Js.assoc k' ms) as [v'|] eqn:Hk'.
  - apply assoc_replace_member. eauto.
  - destruct (array_index k') as [n|].
    + now apply assoc_insert_index.
    + rewrite assoc_app. cbn [Js.assoc].
      destruct (String.eqb_spec k k') as [->|Hne].
      * now rewrite Hk'.
      * now destruct (Js.assoc k ms).
Qed.

Lemma assoc_spread (k : string) (data base : list (string * Js.value)) :
  Js.assoc k (spread data base)
  = match Js.assoc k (reverse data) with
    | Some v => Some v
    | None => Js.assoc k base
    end.
Proof.
  unfold spread. revert base.
  induction data as [|[k0 v0] data IH]; intros base; [reflexivity|].
  cbn [foldl]. rewrite IH, reverse_cons, assoc_app, assoc_set_member.
  destruct (Js.assoc k (reverse data)); [reflexivity|].
  cbn [Js.assoc fst snd]. destruct (String.eqb k k0); reflexivity.
Qed.

Lemma configured_threshold_other (v : string) :
  v <> "debug" -> v <> "info" -> v <> "warn" -> v <> "error" ->
  configured_threshold v = None.
Proof.
  intros Hd Hi Hw He. unfold configured_threshold.
  destruct (String.eqb_spec v "debug"); [contradiction|].
  destruct (String.eqb_spec v "info"); [contradiction|].
  destruct (String.eqb_spec v "warn"); [contradiction|].
  destruct (String.eqb_spec v "error"); [contradiction|reflexivity].
Qed.

Lemma env_or_set (env : gmap string string) (name v d : string) :
  env !! name = Some v -> v <> "" -> env_or env name d = v.
Proof.
  intros Hv Hne. unfold env_or. rewrite Hv.
  destruct (String.eqb_spec v ""); [contradiction|reflexivity].
Qed.

(** X19: what [log] lets through. An [error] message is always written. With
    [LOG_LEVEL] unset or empty everything but [debug] is written. With
    [LOG_LEVEL] set to [debug] everything is written, to [info] everything
    but [debug], to [warn] only [warn] and [error], to [error] only [error].
    With [LOG_LEVEL] set to a string that is not empty and none of these four
    names, every message is written, [debug] included. A configuration that
    lets a level through lets every higher level through. *)
Theorem log_filter (env : gmap string string) (now message : string)
    (data : option (list (string * Js.value))) :
  is_Some (log env now Error message data) /\
  (env !! "LOG_LEVEL" = None \/ env !! "LOG_LEVEL" = Some "" ->
   forall level, is_Some (log env now level message data) <-> level <> Debug) /\
  (env !! "LOG_LEVEL" = Some "debug" ->
   forall level, is_Some (log env now level message data)) /\
  (env !! "LOG_LEVEL" = Some "info" ->
   forall level, is_Some (log env now level message data) <-> level <> Debug) /\
  (env !! "LOG_LEVEL" = Some "warn" ->
   forall level, is_Some (log env now level message data)
                 <-> level = Warn \/ level = Error) /\
  (env !! "LOG_LEVEL" = Some "error" ->
   forall level, is_Some (log env now level message data) <-> level = Error) /\
  (forall v,
     env !! "LOG_LEVEL" = Some v ->
     v <> "" -> v <> "debug" -> v <> "info" -> v <> "warn" -> v <> "error" ->
     forall level, is_Some (log env now level message data)) /\
  (forall level level',
     is_Some (log env now level message data) ->
     LOG_LEVELS level <= LOG_LEVELS level' ->
     is_Some (log env now level' message data)).
Proof.
  unfold log. split; [|split; [|split; [|split; [|split; [|split; [|split]]]]]].
  - destruct (configured_threshold _) as [t|] eqn:Ht; [|eauto].
    unfold configured_threshold in Ht.
    repeat match type of Ht with
           | (if ?b then _ else _) = _ => destruct b
           end; first [discriminate Ht | injection Ht as <-]; cbn; eauto.
  - intros Hunset level.
    assert (Hinfo : env_or env "LOG_LEVEL" "info" = "info").
    { unfold env_or. destruct Hunset as [-> | ->]; reflexivity. }
    rewrite Hinfo. destruct level; cbn; split; intros H; try congruence; eauto.
    now destruct H as [? [=]].
  - intros Hv level. rewrite (env_or_set _ _ _ _ Hv) by discriminate.
    destruct level; cbn; eauto.
  - intros Hv level. rewrite (env_or_set _ _ _ _ Hv) by discriminate.
    destruct level; cbn; split; intros H; try congruence; eauto.
    now destruct H as [? [=]].
  - intros Hv level. rewrite (env_or_set _ _ _ _ Hv) by discriminate.
    destruct level; cbn; split; intros H; eauto;
      first [now destruct H as [? [=]] | now destruct H as [[=]|[=]]].
  - intros Hv level. rewrite (env_or_set _ _ _ _ Hv) by discriminate.
    destruct level; cbn; split; intros H; eauto;
      first [discriminate H | now destruct H as [? [=]]].
  - intros v Hv Hne Hd Hi Hw He level. rewrite (env_or_set _ _ _ _ Hv Hne).
    rewrite (configured_threshold_other v Hd Hi Hw He). eauto.
  - intros level level'.
    destruct (configured_threshold _) as [t|]; [|eauto].
    destruct (Nat.ltb_spec (LOG_LEVELS level) t) as [Hlt|Hge].
    + now intros [? [=]].
    + intros _ Hle. destruct (Nat.ltb_spec (LOG_LEVELS level') t); [lia|eauto].
Qed.

(** X20: the entry [log] writes. A member of [data] replaces the standard
    member of the same name, the last one winning; the standard members
    [level], [message] and [timestamp] that [data] does not name hold the
    level's name, the message and the time. *)
Theorem log_entry (env : gmap string string) (now message : string) (level : LogLevel)
    (data : list (string * Js.value)) (entry : list (string * Js.value)) :
  log env now level message (Some data) = Some entry ->
  (forall k v, Js.assoc k (reverse data) = Some v -> Js.assoc k entry = Some v) /\
  (Js.assoc "level" (reverse data) = None ->
   Js.assoc "level" entry = Some (Js.Str (level_name level))) /\
  (Js.assoc "message" (reverse data) = None ->
   Js.assoc "message" entry = Some (Js.Str message)) /\
  (Js.assoc "timestamp" (reverse data) = None ->
   Js.assoc "timestamp" entry = Some (Js.Str now)).
Proof.
  unfold log. destruct (match configured_threshold _ with Some _ => _ | None => _ end);
    [discriminate|].
  intros [= <-]. cbn [default]. repeat split.
  - intros k v Hk. now rewrite assoc_spread, Hk.
  - intros Hk. now rewrite assoc_spread, Hk.
  - intros Hk. now rewrite assoc_spread, Hk.
  - intros Hk. now rewrite assoc_spread, Hk.
Qed.

End Logging.

(** ** Execution headers, further *)

Section HeadersFurther.

Lemma truthy_header_nonempty (h : option string) (v : string) :
  truthy_header h = Some v -> v <> "".
Proof.
  destruct h as [s|]; cbn; [|discriminate].
  destruct (String.eqb_spec s ""); [discriminate|]. now intros [= <-].
Qed.

(** X21: neither id of a result is empty, as long as the generated UUID is
    not. *)
Theorem extractExecutionHeaders_nonempty (uuid : string)
    (headers : gmap string HeaderValue) (r : ExecutionHeaders.t) :
  uuid <> "" ->
  extractExecutionHeaders uuid headers = Some r ->
  ExecutionHeaders.executionId r <> "" /\ ExecutionHeaders.parentSpanId r <> "".
Proof.
  intros Huuid. unfold extractExecutionHeaders.
  destruct (truthy_header (getHeader headers "x-parent-span-id")) as [p|] eqn:Hp;
    [|discriminate].
  intros [= <-]. cbn. split.
  - destruct (truthy_header (getHeader headers "x-execution-id")) as [e|] eqn:He; cbn.
    + exact (truthy_header_nonempty _ _ He).
    + exact Huuid.
  - exact (truthy_header_nonempty _ _ Hp).
Qed.

(** X22: of a header given as an array only the first element is read: the
    result is the one for the header given as that element alone, and an
    empty array reads as no header. *)
Theorem extractExecutionHeaders_first_only (uuid name v : string) (rest : list string)
    (headers : gmap string HeaderValue) :
  extractExecutionHeaders uuid (<[name := Multi (v :: rest)]> headers)
  = extractExecutionHeaders uuid (<[name := Single v]> headers) /\
  extractExecutionHeaders uuid (<[name := Multi []]> headers)
  = extractExecutionHeaders uuid (delete name headers).
Proof.
  unfold extractExecutionHeaders, getHeader.
  rewrite !lookup_insert, !lookup_delete.
  split; repeat case_decide; reflexivity.
Qed.

End HeadersFurther.

(** ** The events of the Hugging Face parser *)

Section HuggingFaceEvents.
Import Js.
Context `{base : BaseProviderParser}.

Lemma parseChoice_events (choice : value) :
  Shape.readable choice = true ->
  HuggingFace.parseChoice choice
  = Normal
      ((if has_content choice
        then [ {| type := content_block_delta;
                  delta := Some (TextDelta (field "content" (field "delta" choice)));
                  contentBlock := None;
                  index := Some (or_else (field "index" choice) (Num 0)) |} ]
        else [])
       ++ (if has_finish_reason choice
           then [ {| type := message_stop;
                     delta := Some (StopDelta (normalizeStopReason (field "finish_reason" choice)));
                     contentBlock := None;
                     index := None |} ]
           else [])).
Proof.
  intros Hr. unfold HuggingFace.parseChoice, has_content, has_finish_reason.
  rewrite !(get_readable _ choice Hr). cbn [bind].
  rewrite get_opt_field. cbn [bind].
  destruct (truthy (field "content" (field "delta" choice))) eqn:Hc.
  - rewrite (get_readable "content" _ (truthy_field_readable _ _ Hc)). cbn [bind].
    destruct (truthy (field "finish_reason" choice)); reflexivity.
  - cbn [bind]. destruct (truthy (field "finish_reason" choice)); reflexivity.
Qed.

Lemma parseChoices_returns_readable (choices : list value) (events : list StreamChunk) :
  HuggingFace.parseChoices choices = Normal events ->
  forallb Shape.readable choices = true.
Proof.
  intros H. destruct (forallb Shape.readable choices) eqn:Hr; [reflexivity|].
  rewrite (parseChoices_unreadable choices Hr) in H. discriminate H.
Qed.

Lemma count_type_app (t : StreamEventType) (a b : list StreamChunk) :
  count_type t (a ++ b) = count_type t a + count_type t b.
Proof. unfold count_type. now rewrite List.filter_app, length_app. Qed.

(** X23: when the loop over [choices] returns, it has pushed one
    [content_block_delta] per choice with a truthy [delta.content], one
    [message_stop] per choice with a truthy [finish_reason], and nothing
    else. *)
Theorem parseChoices_counts (choices : list value) (events : list StreamChunk) :
  HuggingFace.parseChoices choices = Normal events ->
  count_type content_block_delta events = length (List.filter has_content choices) /\
  count_type message_stop events = length (List.filter has_finish_reason choices) /\
  length events
  = length (List.filter has_content choices)
    + length (List.filter has_finish_reason choices).
Proof.
  revert events. induction choices as [|c cs IH]; intros events.
  - intros [= <-]. repeat split.
  - intros H. pose proof (parseChoices_returns_readable _ _ H) as Hr.
    cbn [forallb] in Hr. apply andb_true_iff in Hr as [Hc Hcs].
    cbn [HuggingFace.parseChoices] in H.
    rewrite (parseChoice_events c Hc) in H. cbn [bind] in H.
    destruct (HuggingFace.parseChoices cs) as [more|]; [|discriminate H].
    cbn [bind] in H. injection H as <-.
    destruct (IH more eq_refl) as (Hd & Hs & Hl).
    rewrite !count_type_app, !length_app, Hd, Hs, Hl. cbn [List.filter].
    destruct (has_content c), (has_finish_reason c); cbn; repeat split; lia.
Qed.

Lemma parse_returns_container (chunk : value) (response : Unified.StreamResponse) :
  HuggingFace.parseStreamChunk chunk = Normal response -> is_container chunk = true.
Proof. destruct chunk; try discriminate; reflexivity. Qed.

Lemma parseStreamChunk_array (items : list value) :
  exists response,
    HuggingFace.parseStreamChunk (Arr items) = Normal response /\
    Unified.chunks response = [] /\
    complete (Unified.metadata response) = Some false.
Proof. eexists. repeat split. Qed.

(** X24: which format decides. On an object whose [choices] is an array the
    events are those of the loop over the choices, whatever else the chunk
    holds, a [token] included. Otherwise a [token] member gives at most one
    event, a [content_block_delta] without index; and a chunk with neither,
    such as a conversational or an error chunk, gives no event. *)
Theorem parseStreamChunk_format (ms : list (string * value))
    (response : Unified.StreamResponse) :
  HuggingFace.parseStreamChunk (Obj ms) = Normal response ->
  (forall items, field "choices" (Obj ms) = Arr items ->
     HuggingFace.parseChoices items = Normal (Unified.chunks response)) /\
  (isArray (field "choices" (Obj ms)) = false ->
   (Shape.present "token" ms = false -> Unified.chunks response = []) /\
   (Shape.present "token" ms = true ->
    Unified.chunks response
    = if truthy (field "text" (field "token" (Obj ms)))
      then [ {| type := content_block_delta;
                delta := Some (TextDelta (field "text" (field "token" (Obj ms))));
                contentBlock := None;
                index := None |} ]
      else [])).
Proof.
  rewrite parseStreamChunk_object_eq.
  destruct (isFinalChunk_object ms) as [final ->].
  split.
  - intros items Hitems. rewrite Hitems in *. cbn [isArray iterate bind] in *.
    destruct (Shape.present "choices" ms) eqn:Hp.
    + cbn [andb] in H. destruct (HuggingFace.parseChoices items); [|discriminate H].
      cbn [bind] in H. now injection H as <-.
    + rewrite (absent_field _ _ Hp) in Hitems. discriminate Hitems.
  - intros Harr. rewrite Harr, andb_false_r in H. split.
    + intros Htok. rewrite Htok in H. cbn [bind] in H. now injection H as <-.
    + intros Htok. rewrite Htok in H. unfold HuggingFace.parseToken in H.
      rewrite (get_readable "token" (Obj ms) eq_refl) in H. cbn [bind] in H.
      rewrite get_opt_field in H. cbn [bind] in H.
      destruct (truthy (field "text" (field "token" (Obj ms)))) eqn:Ht.
      * rewrite (get_readable "text" _ (truthy_field_readable _ _ Ht)) in H.
        cbn [bind] in H. now injection H as <-.
      * cbn [bind] in H. now injection H as <-.
Qed.

(** X25: the completion flag and the id of a response. The flag is set
    exactly when [generated_text] is truthy or [details.finish_reason] is;
    the id is the chunk's when that is truthy and the generated one
    otherwise. *)
Theorem parseStreamChunk_complete (chunk : value) (response : Unified.StreamResponse) :
  HuggingFace.parseStreamChunk chunk = Normal response ->
  complete (Unified.metadata response)
  = Some (truthy (field "generated_text" chunk)
          || truthy (field "finish_reason" (field "details" chunk))) /\
  Unified.id response = or_else (field "id" chunk) (Str generateId).
Proof.
  intros H. pose proof (parse_returns_container _ _ H) as Hc.
  destruct chunk as [| |b|q|s|items|ms]; try discriminate Hc.
  - injection H as <-. split; reflexivity.
  - rewrite parseStreamChunk_object_eq in H.
    match type of H with (chunks <- ?c ;; _) = _ => destruct c as [events|] end;
      [|discriminate H].
    cbn [bind] in H. unfold HuggingFace.isFinalChunk in H.
    rewrite !(get_readable _ (Obj ms) eq_refl) in H. cbn [bind] in H.
    destruct (truthy (field "generated_text" (Obj ms))).
    + cbn [bind] in H. injection H as <-. split; reflexivity.
    + rewrite get_opt_field in H. cbn [bind] in H. injection H as <-.
      split; reflexivity.
Qed.

(** X26: the parser on a chunk the validator rejects. For [null],
    [undefined] and the primitives it throws a [TypeError]; for a rejected
    object or array it returns a response without events. *)
Theorem parseStreamChunk_rejected (chunk : value) :
  HuggingFace.rejects chunk ->
  (is_container chunk = false /\
   HuggingFace.parseStreamChunk chunk = Throw TypeError) \/
  (is_container chunk = true /\
   exists response,
     HuggingFace.parseStreamChunk chunk = Normal response /\
     Unified.chunks response = []).
Proof.
  intros [d Hd].
  destruct chunk as [| |b|q|s|items|ms]; try (left; split; reflexivity).
  - right. split; [reflexivity|].
    destruct (parseStreamChunk_array items) as (r & Hr & Hc & _). eauto.
  - right. split; [reflexivity|].
    rewrite validate_object in Hd. injection Hd as Hacc _.
    unfold Shape.accepted_members in Hacc.
    repeat (apply orb_false_iff in Hacc as [Hacc ?]).
    rewrite parseStreamChunk_object_eq.
    match goal with Hc : _ && _ = false |- _ => cbn [field]; rewrite Hc end.
    match goal with Ht : Shape.present "token" ms = false |- _ => rewrite Ht end.
    cbn [bind]. destruct (isFinalChunk_object ms) as [final ->]. cbn [bind].
    eexists. split; reflexivity.
Qed.

(** X27: the diagnostics of the validator. Accepting a chunk records
    nothing; rejecting one records exactly one message: that the format is
    unrecognized for an object or an array, and that the chunk must be an
    object for anything else. *)
Theorem validateStreamChunk_diagnostics (chunk : value) :
  exists verdict diagnostics,
    HuggingFace.validateStreamChunk chunk = Normal (verdict, diagnostics) /\
    diagnostics
    = if verdict then []
      else if is_container chunk then ["Invalid chunk: unrecognized format"]
      else ["Invalid chunk: must be an object"].
Proof.
  destruct chunk as [| |b|q|s|items|ms]; try (eexists _, _; split; reflexivity).
  - destruct b; eexists _, _; split; reflexivity.
  - unfold HuggingFace.validateStreamChunk. cbn [truthy typeof_object].
    rewrite orb_true_r. eexists _, _; split; reflexivity.
  - unfold HuggingFace.validateStreamChunk. cbn [truthy typeof_object].
    rewrite orb_true_r. eexists _, _; split; reflexivity.
  - rewrite validate_object. eexists _, _. split; [reflexivity|].
    destruct (Shape.accepted_members ms); reflexivity.
Qed.

End HuggingFaceEvents.

(** ** The repaired Together AI parser *)

Section TogetherFixed.
Import Js.
Context `{base : BaseProviderParser}.
Variable JSON_parse : value -> completion value.

Lemma parseChoice_fixed_without_tool_calls (choice : value) :
  has_tool_calls choice = false ->
  Together.parseChoice_fixed JSON_parse choice = HuggingFace.parseChoice choice.
Proof.
  intros Htc. destruct (Shape.readable choice) eqn:Hr.
  - rewrite (parseChoice_events choice Hr).
    unfold Together.parseChoice_fixed, has_content, has_finish_reason.
    unfold has_tool_calls in Htc.
    rewrite !(get_readable _ choice Hr). cbn [bind].
    rewrite !get_opt_field. cbn [bind]. rewrite Htc.
    destruct (truthy (field "content" (field "delta" choice))) eqn:Hc.
    + rewrite (get_readable "content" _ (truthy_field_readable _ _ Hc)). cbn [bind].
      destruct (truthy (field "finish_reason" choice)); reflexivity.
    + cbn [bind]. destruct (truthy (field "finish_reason" choice)); reflexivity.
  - rewrite (parseChoice_unreadable choice Hr).
    unfold Together.parseChoice_fixed. now rewrite (get_unreadable _ choice Hr).
Qed.

(** X28: on choices without tool calls the repaired Together AI loop and the
    Hugging Face loop are the same function: the same events in the same
    order, or the same exception. *)
Theorem parseChoices_fixed_agrees (choices : list value) :
  forallb (fun choice => negb (has_tool_calls choice)) choices = true ->
  Together.parseChoices_fixed JSON_parse choices = HuggingFace.parseChoices choices.
Proof.
  induction choices as [|c cs IH]; cbn [forallb]; [reflexivity|].
  intros [Hc Hcs]%andb_true_iff. apply negb_true_iff in Hc.
  cbn [Together.parseChoices_fixed HuggingFace.parseChoices].
  now rewrite (parseChoice_fixed_without_tool_calls c Hc), (IH Hcs).
Qed.

Lemma parseChoices_fixed_app (a b : list value) (events : list StreamChunk) :
  Together.parseChoices_fixed JSON_parse a = Normal events ->
  Together.parseChoices_fixed JSON_parse (a ++ b)
  = (more <- Together.parseChoices_fixed JSON_parse b ;; Normal (events ++ more)).
Proof.
  revert events. induction a as [|c a IH]; intros events.
  - intros [= <-]. cbn [app]. now destruct (Together.parseChoices_fixed JSON_parse b).
  - cbn [app Together.parseChoices_fixed].
    destruct (Together.parseChoice_fixed JSON_parse c) as [e1|]; [|discriminate].
    cbn [bind].
    destruct (Together.parseChoices_fixed JSON_parse a) as [e2|] eqn:Ha; [|discriminate].
    cbn [bind]. intros [= <-]. rewrite (IH e2 eq_refl).
    destruct (Together.parseChoices_fixed JSON_parse b); cbn [bind]; [|reflexivity].
    now rewrite app_assoc.
Qed.

(** X29: tool-call arguments that [JSON.parse] rejects are not degraded to
    an empty object: the exception leaves the repaired method, and the events
    of the choices before are lost with it. *)
Theorem parseStreamChunk_fixed_malformed_arguments
    (before after : list value) (events : list StreamChunk)
    (toolCall : value) (e : exn) :
  Together.parseChoices_fixed JSON_parse before = Normal events ->
  Shape.readable toolCall = true ->
  JSON_parse (or_else (field "arguments" (field "function" toolCall)) (Str "{}"))
    = Throw e ->
  Together.parseStreamChunk_fixed JSON_parse
    (Obj [("choices",
           Arr (before
                ++ Obj [("delta", Obj [("tool_calls", Arr [toolCall])])] :: after))])
  = Throw e.
Proof.
  intros Hbefore Hr Hparse.
  unfold Together.parseStreamChunk_fixed.
  cbn. rewrite (parseChoices_fixed_app before _ events Hbefore).
  cbn [Together.parseChoices_fixed].
  assert (Hchoice :
            Together.parseChoice_fixed JSON_parse
              (Obj [("delta", Obj [("tool_calls", Arr [toolCall])])]) = Throw e).
  { unfold Together.parseChoice_fixed. cbn.
    unfold Together.parseToolCall.
    rewrite !(get_readable _ toolCall Hr). cbn [bind].
    rewrite !get_opt_field. cbn [bind]. now rewrite Hparse. }
  now rewrite Hchoice.
Qed.

End TogetherFixed.

(** ** The further properties on concrete runs *)

Lemma reachable_lifecycle_witness :
  reachable Run.failed_run /\
  Forall lifecycle_ok (RepoSpan.agent_spans (repoSpan Run.failed_run)).
Proof.
  assert (Hreach : reachable Run.failed_run).
  { unfold Run.failed_run. repeat apply reachable_step. apply reachable_new. }
  split; [exact Hreach|]. exact (reachable_lifecycle Run.failed_run Hreach).
Defined.

Lemma step_frame_witness :
  is_start (CompleteAgentSpan "t" 0) = false /\
  target (CompleteAgentSpan "t" 0) <> Some 1 /\
  length (RepoSpan.agent_spans (repoSpan (step (CompleteAgentSpan "t" 0) Run.failed_run)))
    = length (RepoSpan.agent_spans (repoSpan Run.failed_run)) /\
  RepoSpan.agent_spans (repoSpan (step (CompleteAgentSpan "t" 0) Run.failed_run)) !! 1
    = RepoSpan.agent_spans (repoSpan Run.failed_run) !! 1.
Proof.
  split; [reflexivity|]. split; [discriminate|].
  apply (step_frame (CompleteAgentSpan "t" 0) Run.failed_run 1);
    [reflexivity|discriminate].
Defined.

Lemma complete_after_fail_witness :
  exists s,
    RepoSpan.agent_spans (repoSpan Run.failed_run) !! 0 = Some s /\
    exists s',
      RepoSpan.agent_spans
        (repoSpan (completeAgentSpan "t2" 0 (failAgentSpan "t1" 0 "Again" Run.failed_run)))
        !! 0 = Some s' /\
      AgentSpan.status s' = COMPLETED /\
      AgentSpan.end_time s' = Some "t2" /\
      AgentSpan.failure_reason s' = Some "Again" /\
      AgentSpan.artifacts s' = AgentSpan.artifacts s.
Proof.
  eexists. split; [reflexivity|].
  apply (complete_after_fail "t1" "t2" "Again" 0 Run.failed_run). reflexivity.
Defined.

Lemma run_artifacts_append_only_witness :
  exists s,
    RepoSpan.agent_spans (repoSpan Run.failed_run) !! 0 = Some s /\
    exists s',
      RepoSpan.agent_spans
        (repoSpan (run [AttachArtifact 0 Sample.artifact] Run.failed_run)) !! 0 = Some s' /\
      AgentSpan.artifacts s `prefix_of` AgentSpan.artifacts s'.
Proof.
  eexists. split; [reflexivity|].
  apply (run_artifacts_append_only [AttachArtifact 0 Sample.artifact] Run.failed_run 0).
  reflexivity.
Defined.

Lemma failed_span_fails_execution_witness :
  exists s,
    RepoSpan.agent_spans (repoSpan Run.failed_run) !! 0 = Some s /\
    RepoSpan.status (repoSpan (finalize "t2" (failAgentSpan "t1" 0 "Again" Run.failed_run)))
      = FAILED /\
    exists lines,
      RepoSpan.failure_reason
        (repoSpan (finalize "t2" (failAgentSpan "t1" 0 "Again" Run.failed_run)))
        = Some (String.concat "; " lines) /\
      (AgentSpan.agent_name s +:+ ": " +:+ "Again") ∈ lines.
Proof.
  eexists. split; [reflexivity|].
  apply (failed_span_fails_execution "t1" "t2" "Again" 0 Run.failed_run). reflexivity.
Defined.

Lemma first_finalize_witness :
  forallb (fun op => negb (is_finalize op)) Sample.ops = true /\
  RepoSpan.status
    (repoSpan (finalize "t9" (run Sample.ops (new_ExecutionContext "r-1" "t0" "exec-1" "parent-1"))))
    <> RUNNING.
Proof.
  split; [reflexivity|].
  exact (proj1 (proj2 (proj2 (proj2
    (first_finalize "r-1" "t0" "exec-1" "parent-1" "t9" Sample.ops eq_refl))))).
Defined.

Lemma buildResponse_envelope_witness :
  reachable Run.failed_run /\
  result (snd (buildResponse "t9" tt Run.failed_run)) = tt /\
  RepoSpan.status (execution (snd (buildResponse "t9" tt Run.failed_run))) <> RUNNING.
Proof.
  assert (Hreach : reachable Run.failed_run).
  { unfold Run.failed_run. repeat apply reachable_step. apply reachable_new. }
  split; [exact Hreach|].
  pose proof (buildResponse_envelope "t9" tt Run.failed_run Hreach) as (H1 & _ & H3 & _).
  split; [exact H1|exact H3].
Defined.

Lemma handleAgent_exception_witness :
  thrown (Handlers.ThrownEarly "boom") = Some "boom" /\
  exists exec span,
    Handlers.handleAgent Sample.digest Sample.bytes (Handlers.cli_generator "cli" "1.0.0")
      Sample.oracle Sample.headers (Handlers.ThrownEarly "boom")
    = {| Handlers.statusCode := 500; Handlers.trace := None;
         Handlers.body :=
           Handlers.Envelope
             (Handlers.FailurePayload "INTERNAL_ERROR" "CLI generation failed") exec |} /\
    RepoSpan.status exec = FAILED /\
    RepoSpan.failure_reason exec = Some "cli: boom" /\
    RepoSpan.parent_span_id exec = "span-456" /\
    RepoSpan.agent_spans exec = [span] /\
    AgentSpan.status span = FAILED /\
    AgentSpan.failure_reason span = Some "boom" /\
    AgentSpan.artifacts span = [].
Proof.
  split; [reflexivity|].
  apply (proj2 (handleAgent_exception Sample.digest Sample.bytes
                  (Handlers.cli_generator "cli" "1.0.0") Sample.oracle Sample.headers
                  (Handlers.ThrownEarly "boom") "boom" eq_refl) "span-456").
  split; [left; reflexivity|discriminate].
Defined.

Lemma route_ignores_query_witness :
  free_of "?" "/health" = true /\
  Service.route (Some "GET") (Some "/health?verbose=1") = Service.route (Some "GET") (Some "/health").
Proof.
  split; [reflexivity|].
  exact (route_ignores_query (Some "GET") "/health" "verbose=1" eq_refl).
Defined.

Lemma route_invocation_witness :
  free_of "?" "status" = true /\
  Service.route (Some "POST") (Some "/api/v1/agents/sdk-generator/status")
  = Service.Invoke Service.SdkGenerator.
Proof.
  split; [reflexivity|].
  exact (proj2 (route_invocation Service.SdkGenerator "status" eq_refl)).
Defined.

Lemma route_status_witness :
  free_of "/" "no-such-agent" = true /\
  free_of "?" "no-such-agent" = true /\
  Service.route (Some "GET") (Some "/api/v1/agents/no-such-agent/status")
  = Service.AgentStatus (Some "no-such-agent").
Proof.
  split; [reflexivity|]. split; [reflexivity|].
  exact (route_status "no-such-agent" eq_refl eq_refl).
Defined.

Lemma log_entry_witness :
  exists entry,
    Service.log ∅ "t" Service.Info "started" (Some [("level", Js.Str "fatal")]) = Some entry /\
    Js.assoc "level" entry = Some (Js.Str "fatal") /\
    Js.assoc "message" entry = Some (Js.Str "started").
Proof.
  eexists. split; [reflexivity|].
  pose proof (log_entry ∅ "t" "started" Service.Info [("level", Js.Str "fatal")] _ eq_refl)
    as (Hdata & _ & Hmessage & _).
  split; [exact (Hdata "level" _ eq_refl)|exact (Hmessage eq_refl)].
Defined.

Lemma extractExecutionHeaders_nonempty_witness :
  Run.uuid <> "" /\
  exists r,
    extractExecutionHeaders Run.uuid Sample.headers = Some r /\
    ExecutionHeaders.executionId r <> "" /\ ExecutionHeaders.parentSpanId r <> "".
Proof.
  split; [discriminate|]. eexists. split; [reflexivity|].
  apply (extractExecutionHeaders_nonempty Run.uuid Sample.headers);
    [discriminate|reflexivity].
Defined.

Lemma parseChoices_counts_witness :
  exists events,
    HuggingFace.parseChoices (base := Fixture.base "huggingface") Sample.choices
      = Js.Normal events /\
    count_type content_block_delta events = 1 /\
    count_type message_stop events = 1 /\
    length events = 2.
Proof.
  eexists. split; [reflexivity|].
  exact (parseChoices_counts (base := Fixture.base "huggingface") Sample.choices _ eq_refl).
Defined.

Lemma parseStreamChunk_format_witness :
  exists response,
    HuggingFace.parseStreamChunk (base := Fixture.base "huggingface") Scenario.C
      = Js.Normal response /\
    Unified.chunks response = [].
Proof.
  eexists. split; [reflexivity|].
  pose proof (parseStreamChunk_format (base := Fixture.base "huggingface")
                [("generated_text", Js.Str "Full answer.");
                 ("details", Js.Obj [("finish_reason", Js.Str "eos_token")])]
                _ eq_refl) as (_ & Hformat).
  exact (proj1 (Hformat eq_refl) eq_refl).
Defined.

Lemma parseStreamChunk_complete_witness :
  exists response,
    HuggingFace.parseStreamChunk (base := Fixture.base "huggingface") Scenario.C
      = Js.Normal response /\
    complete (Unified.metadata response) = Some true.
Proof.
  eexists. split; [reflexivity|].
  exact (proj1 (parseStreamChunk_complete (base := Fixture.base "huggingface")
                  Scenario.C _ eq_refl)).
Defined.

Lemma parseStreamChunk_rejected_witness :
  HuggingFace.rejects (Js.Obj []) /\
  ((is_container (Js.Obj []) = false /\
    HuggingFace.parseStreamChunk (base := Fixture.base "huggingface") (Js.Obj [])
      = Js.Throw Js.TypeError) \/
   (is_container (Js.Obj []) = true /\
    exists response,
      HuggingFace.parseStreamChunk (base := Fixture.base "huggingface") (Js.Obj [])
        = Js.Normal response /\
      Unified.chunks response = [])).
Proof.
  assert (Hrej : HuggingFace.rejects (Js.Obj [])) by (eexists; reflexivity).
  split; [exact Hrej|].
  exact (parseStreamChunk_rejected (base := Fixture.base "huggingface") (Js.Obj []) Hrej).
Defined.

Lemma parseChoices_fixed_agrees_witness :
  forallb (fun choice => negb (has_tool_calls choice)) Sample.choices = true /\
  Together.parseChoices_fixed (base := Fixture.base "together") Sample.rejecting_parse
    Sample.choices
  = HuggingFace.parseChoices (base := Fixture.base "together") Sample.choices.
Proof.
  split; [reflexivity|].
  exact (parseChoices_fixed_agrees (base := Fixture.base "together")
           Sample.rejecting_parse Sample.choices eq_refl).
Defined.

Lemma parseStreamChunk_fixed_malformed_arguments_witness :
  Shape.readable Sample.cut_tool_call = true /\
  Together.parseStreamChunk_fixed (base := Fixture.base "together") Sample.rejecting_parse
    (Js.Obj [("choices",
              Js.Arr (Sample.choices
                      ++ [Js.Obj [("delta",
                                   Js.Obj [("tool_calls", Js.Arr [Sample.cut_tool_call])])]]))])
  = Js.Throw Js.SyntaxError.
Proof.
  split; [reflexivity|].
  exact (parseStreamChunk_fixed_malformed_arguments (base := Fixture.base "together")
           Sample.rejecting_parse Sample.choices [] _ Sample.cut_tool_call Js.SyntaxError
           eq_refl eq_refl eq_refl).
Defined.

Lemma parseStreamChunk_validated_throws_iff_witness :
  HuggingFace.accepts Scenario.null_choice /\
  HuggingFace.parseStreamChunk (base := Fixture.base "huggingface") Scenario.null_choice
  = Js.Throw Js.TypeError.
Proof.
  assert (Hacc : HuggingFace.accepts Scenario.null_choice) by (eexists; reflexivity).
  split; [exact Hacc|].
  apply (proj1 (parseStreamChunk_validated_throws_iff
                  (base := Fixture.base "huggingface") Scenario.null_choice Hacc)).
  exists [Js.Null]. split; [reflexivity|]. left. apply list_elem_of_here.
Defined.

Lemma parseStreamChunk_returns_on_validated_witness :
  validates (TogetherProvider (base := Fixture.base "together") false false false)
    Scenario.B /\
  exists parse response,
    parseStreamChunk_method
      (TogetherProvider (base := Fixture.base "together") false false false)
      = Some parse /\
    parse Scenario.B = Js.Normal response /\
    Unified.chunks response = [].
Proof.
  assert (Hval : validates
                   (TogetherProvider (base := Fixture.base "together") false false false)
                   Scenario.B)
    by (eexists _, _; split; reflexivity).
  split; [exact Hval|].
  exact (parseStreamChunk_returns_on_validated (base := Fixture.base "together")
           false false false Scenario.B Hval).
Defined.

Lemma handleSDKGenerator_reply_witness :
  first_value (Sample.headers !! "x-parent-span-id") "span-456" /\
  ~ (100 <= 42 <= 999)%N /\
  exists exec span,
    Handlers.handleSDKGenerator Sample.digest Sample.bytes
      (fun _ => Some Js.Null) (fun _ => "") "sdk" "1.0.0"
      Sample.oracle Sample.headers (Handlers.SdkResponded 42 "null" None)
    = {| Handlers.statusCode := 500; Handlers.trace := None;
         Handlers.body :=
           Handlers.Envelope
             (Handlers.FailurePayload "INTERNAL_ERROR" "SDK generation failed") exec |} /\
    RepoSpan.parent_span_id exec = "span-456" /\
    RepoSpan.status exec = FAILED /\
    RepoSpan.failure_reason exec = Some "sdk: Invalid status code: 42" /\
    RepoSpan.agent_spans exec = [span] /\
    AgentSpan.status span = FAILED /\
    AgentSpan.failure_reason span = Some "Invalid status code: 42" /\
    length (AgentSpan.artifacts span) = 1.
Proof.
  assert (Hp : first_value (Sample.headers !! "x-parent-span-id") "span-456")
    by (left; reflexivity).
  assert (Hout : ~ (100 <= 42 <= 999)%N) by lia.
  split; [exact Hp|]. split; [exact Hout|].
  assert (Hne : "span-456" <> "") by discriminate.
  destruct (handleSDKGenerator_reply Sample.digest Sample.bytes
              (fun _ => Some Js.Null) (fun _ => "") "sdk" "1.0.0"
              Sample.oracle Sample.headers 42 "null") as [_ H].
  destruct (H "span-456" (conj Hp Hne)) as [Hparsed _].
  destruct (Hparsed Js.Null eq_refl) as [_ Hinvalid].
  destruct (Hinvalid Hout)
    as (exec & span & Hreply & Hparent & Hstatus & Hreason & Hspans & Hspan & Hline & Harts).
  exists exec, span.
  split; [exact Hreply|]. split; [exact Hparent|]. split; [exact Hstatus|].
  split; [rewrite Hreason; vm_compute; reflexivity|]. split; [exact Hspans|].
  split; [exact Hspan|]. split; [rewrite Hline; vm_compute; reflexivity|exact Harts].
Defined.


